(** * mongoose-i18n-extra: the field-overlay translation plugin

    A shallow embedding of [src/mongoose-i18n-extra.ts].  JavaScript values
    are a small inductive type, objects are association lists in insertion
    order, a thrown [TypeError] is an explicit result, and the document the
    hooks run on ([this]) is threaded as explicit state. *)

From Stdlib Require Import String Ascii List Bool ZArith Lia.
Import ListNotations.
Open Scope string_scope.
Set Warnings "-register-all".

(** ** JavaScript values *)

Module JS.

Inductive value : Type :=
| VUndef
| VNull
| VBool (b : bool)
| VNum (n : Z)
| VStr (s : string)
| VObj (props : list (string * value)).

(** [if (v)], [!v], [a || b]. *)
Definition truthy (v : value) : bool :=
  match v with
  | VUndef | VNull => false
  | VBool b => b
  | VNum n => negb (n =? 0)%Z
  | VStr s => negb (s =? "")
  | VObj _ => true
  end.

Definition or_else (a b : value) : value := if truthy a then a else b.

Definition is_obj (v : value) : bool :=
  match v with VObj _ => true | _ => false end.

(** Own properties of an object literal. *)
Fixpoint lookup (k : string) (l : list (string * value)) : option value :=
  match l with
  | [] => None
  | (k', v) :: t => if k =? k' then Some v else lookup k t
  end.

(** [o[k] = v] on the property list: an existing key keeps its place, a new
    key goes last. *)
Fixpoint upd (k : string) (v : value) (l : list (string * value))
  : list (string * value) :=
  match l with
  | [] => [(k, v)]
  | (k', v') :: t => if k =? k' then (k, v) :: t else (k', v') :: upd k v t
  end.

Fixpoint remove (k : string) (l : list (string * value))
  : list (string * value) :=
  match l with
  | [] => []
  | (k', v') :: t => if k =? k' then remove k t else (k', v') :: remove k t
  end.

Definition keys (l : list (string * value)) : list string := map fst l.

(** [o[k]] for a value [o] that is neither [undefined] nor [null]: an absent
    key reads [undefined]; so does any key of a primitive (the keys of this
    program are language codes and field names, never [length] or an
    index). *)
Definition member (o : value) (k : string) : value :=
  match o with
  | VObj l => match lookup k l with Some v => v | None => VUndef end
  | _ => VUndef
  end.

(** The outcome of a statement: a result, or a thrown [TypeError]. *)
Inductive res (A : Type) : Type :=
| Ok (a : A)
| TypeError.
Arguments Ok {A} a.
Arguments TypeError {A}.

Definition bind {A B} (r : res A) (f : A -> res B) : res B :=
  match r with
  | Ok a => f a
  | TypeError => TypeError
  end.

(** [o[k]] throws on [undefined] and [null]. *)
Definition get_member (o : value) (k : string) : res value :=
  match o with
  | VUndef | VNull => TypeError
  | _ => Ok (member o k)
  end.

(** [o[k] = v]: the module is compiled in strict mode, so the assignment
    throws on every value that is not an object. *)
Definition set_member (o : value) (k : string) (v : value) : res value :=
  match o with
  | VObj l => Ok (VObj (upd k v l))
  | _ => TypeError
  end.

(** [delete o[k]]. *)
Definition delete_member (o : value) (k : string) : res value :=
  match o with
  | VUndef | VNull => TypeError
  | VObj l => Ok (VObj (remove k l))
  | _ => Ok o
  end.

(** Calling [o.m(...)]: a [TypeError] when the property [m] is absent. *)
Definition invoke {A} (present : bool) (body : A) : res A :=
  if present then Ok body else TypeError.

(** [Array.prototype.forEach] with a body that may throw. *)
Fixpoint forEach {A S} (body : A -> S -> res S) (l : list A) (s : S) : res S :=
  match l with
  | [] => Ok s
  | a :: t => bind (body a s) (forEach body t)
  end.

(** [xs.includes(v)] and [xs.indexOf(v) !== -1] on an array of strings: only
    a string equal to an element is found. *)
Definition includes (xs : list string) (v : value) : bool :=
  match v with
  | VStr s => existsb (String.eqb s) xs
  | _ => false
  end.

(** [s.split(".")]. *)
Fixpoint split_path (s : string) : list string :=
  match s with
  | EmptyString => [EmptyString]
  | String c rest =>
      if Ascii.eqb c "."%char then EmptyString :: split_path rest
      else match split_path rest with
           | [] => [String c EmptyString]
           | seg :: segs => String c seg :: segs
           end
  end.

End JS.
Export JS.

Notation "x <- c1 ;; c2" := (bind c1 (fun x => c2))
  (at level 61, c1 at next level, right associativity).
Notation "' pat <- c1 ;; c2" :=
  (bind c1 (fun x => match x with pat => c2 end))
  (at level 61, pat pattern, c1 at next level, right associativity).

(** ** The host document *)

Module Host.

(** Modelled from the spec: the host document framework is not part of the
    repository.  Section 1 asks of it "field storage by path" and "a mark
    field as changed operation".  A document is the raw storage object
    [_doc], its other own data properties, the flags the plugin reads
    ([isNew], [docLanguage]), the list of paths marked as changed, and which
    of the access primitives the host version offers. *)
Record document : Type := mkDocument {
  has_getValue : bool;       (* [this.getValue] *)
  has___getValue : bool;     (* [this.$__getValue] *)
  has_setValue : bool;       (* [this.setValue] *)
  has___setValue : bool;     (* [this.$__setValue] *)
  has_getLanguage : bool;    (* [this.getLanguage], installed by the plugin *)
  _doc : value;
  own : list (string * value);
  docLanguage : option string;
  isNew : bool;
  modifiedPaths : list string
}.

Definition with_doc (d : document) (v : value) : document :=
  mkDocument (has_getValue d) (has___getValue d) (has_setValue d)
    (has___setValue d) (has_getLanguage d) v (own d) (docLanguage d)
    (isNew d) (modifiedPaths d).

Definition with_own (d : document) (l : list (string * value)) : document :=
  mkDocument (has_getValue d) (has___getValue d) (has_setValue d)
    (has___setValue d) (has_getLanguage d) (_doc d) l (docLanguage d)
    (isNew d) (modifiedPaths d).

Definition with_docLanguage (d : document) (l : option string) : document :=
  mkDocument (has_getValue d) (has___getValue d) (has_setValue d)
    (has___setValue d) (has_getLanguage d) (_doc d) (own d) l
    (isNew d) (modifiedPaths d).

(** Modelled from the spec: "mark field as changed". *)
Definition markModified (d : document) (path : string) : document :=
  mkDocument (has_getValue d) (has___getValue d) (has_setValue d)
    (has___setValue d) (has_getLanguage d) (_doc d) (own d) (docLanguage d)
    (isNew d) (path :: modifiedPaths d).

Fixpoint starts_with (p s : string) : bool :=
  match p, s with
  | EmptyString, _ => true
  | String a p', String b s' => Ascii.eqb a b && starts_with p' s'
  | String _ _, EmptyString => false
  end.

(** A path counts as changed when it, or a path below it, was marked. *)
Definition isModified (d : document) (path : string) : bool :=
  existsb (fun q => (q =? path) || starts_with (path ++ ".") q)
    (modifiedPaths d).

(** Modelled from the spec: "field storage by path", reading.  A dotted path
    walks the stored tree; a missing step reads [undefined]. *)
Fixpoint store_get (parts : list string) (o : value) : value :=
  match parts with
  | [] => o
  | p :: rest =>
      match o with
      | VObj _ => store_get rest (member o p)
      | _ => VUndef
      end
  end.

(** Modelled from the spec: "field storage by path", writing.  The objects
    on the way are created when they are missing. *)
Fixpoint store_set (parts : list string) (v : value) (o : value) : value :=
  match parts with
  | [] => v
  | p :: rest =>
      match o with
      | VObj l => VObj (upd p (store_set rest v (member o p)) l)
      | _ => VObj [(p, store_set rest v VUndef)]
      end
  end.

(** [doc.getValue(path)] and [doc.$__getValue(path)]: the raw stored value. *)
Definition getValue (d : document) (path : string) : value :=
  store_get (split_path path) (_doc d).

(** [doc.setValue(path, v)] and [doc.$__setValue(path, v)]: a raw write that
    marks nothing. *)
Definition setValue (d : document) (path : string) (v : value) : document :=
  with_doc d (store_set (split_path path) v (_doc d)).

(** [doc.get(path)] for a path that is not declared in the schema (every
    path below the virtual [_i18n]): the raw stored value. *)
Definition get (d : document) (path : string) : value :=
  store_get (split_path path) (_doc d).

(** The own data properties seen by [doc[key]]. *)
Definition view (d : document) : list (string * value) :=
  ("_doc", _doc d) :: ("isNew", VBool (isNew d))
  :: match docLanguage d with
     | Some l => [("docLanguage", VStr l)]
     | None => []
     end ++ own d.

(** Modelled from the spec: the "generic path-based accessor",
    [mpath.get(path, o, special)].  At every step the walk looks into
    [o[special]] when that is set, and it stops at the first empty value. *)
Fixpoint mpath_get (special : string) (parts : list string) (o : value)
  : value :=
  match parts with
  | [] => o
  | part :: rest =>
      let from := if truthy (member o special) then member o special else o in
      let next := member from part in
      if truthy next then mpath_get special rest next else next
  end.

(** Modelled from the spec: the same "generic path-based accessor",
    writing.  The host's library is not part of the repository's source;
    this is its [mpath.set(path, v, o)], which walks to the object that
    holds the last step and assigns there.  It gives up without a word at
    the first empty value on the way and creates nothing; it does not run in
    strict mode, so an assignment into a primitive is dropped. *)
Fixpoint mpath_set (parts : list string) (v : value) (o : value) : value :=
  match parts with
  | [] => o
  | [last] =>
      match o with
      | VObj l => VObj (upd last v l)
      | _ => o
      end
  | part :: rest =>
      let next := member o part in
      if truthy next then
        match o with
        | VObj l => VObj (upd part (mpath_set rest v next) l)
        | _ => o
        end
      else o
  end.

End Host.
Export Host.

(** ** The plugin *)

Module Plugin.

(** [interface Options]; [language] is left out by callers that configure no
    schema-wide language, and then reads [undefined]. *)
Record Options : Type := mkOptions {
  defaultLanguage : string;
  languages : list string;
  language : option string
}.

Definition with_language (o : Options) (l : string) : Options :=
  mkOptions (defaultLanguage o) (languages o) (Some l).

Definition with_defaultLanguage (o : Options) (l : string) : Options :=
  mkOptions l (languages o) (language o).

(** Truthiness of an optional string property. *)
Definition set_str (o : option string) : bool :=
  match o with
  | Some s => negb (s =? "")
  | None => false
  end.

(** *** Field access helpers (lines 11-28) *)

Definition setPathValue (mongooseObj : document) (path : string) (v : value)
  : res document :=
  if has_setValue mongooseObj
  then invoke (has_setValue mongooseObj) (setValue mongooseObj path v)
  else invoke (has___setValue mongooseObj) (setValue mongooseObj path v).

Definition getPathValue (mongooseObj : document) (path : string) : res value :=
  if has_getValue mongooseObj then
    invoke (has_getValue mongooseObj) (getValue mongooseObj path)
  else if has___getValue mongooseObj then
    invoke (has___getValue mongooseObj) (getValue mongooseObj path)
  else if truthy (member (VObj (view mongooseObj)) path) then
    Ok (member (VObj (view mongooseObj)) path)
  else
    Ok (mpath_get "_doc" (split_path path) (VObj (view mongooseObj))).

(** [getPathValue(this, "_i18n")] hands out the stored object itself, not a
    copy: what the caller then assigns into it is also assigned into the
    document.  [alias_i18n this v] is the document once the object that
    [getPathValue] found has become [v]. *)
Definition alias_i18n (this : document) (v : value) : document :=
  if has_getValue this || has___getValue this then
    with_doc this (store_set ["_i18n"] v (_doc this))
  else if truthy (member (VObj (view this)) "_i18n") then
    with_own this (upd "_i18n" v (own this))
  else
    with_doc this (store_set ["_i18n"] v (_doc this)).

Definition sync (aliased : bool) (this : document) (v : value) : document :=
  if aliased then alias_i18n this v else this.

(** *** Instance methods (lines 128-143) *)

Definition getLanguages (options : Options) : list string :=
  languages options.

(** [this.docLanguage || options.language || options.defaultLanguage] *)
Definition getLanguage (options : Options) (this : document) : string :=
  if set_str (docLanguage this) then
    match docLanguage this with Some l => l | None => "" end
  else if set_str (language options) then
    match language options with Some l => l | None => "" end
  else defaultLanguage options.

Definition setLanguage (options : Options) (this : document) (lang : value)
  : document :=
  if truthy lang && includes (getLanguages options) lang then
    match lang with
    | VStr l => with_docLanguage this (Some l)
    | _ => this
    end
  else this.

Definition unsetLanguage (this : document) : document :=
  with_docLanguage this None.

(** *** Per-language virtuals [path_lang] (lines 41-58) *)

Definition overlay_key (lang path : string) : string :=
  "_i18n." ++ lang ++ "." ++ path.

Definition virtual_lang_get (options : Options) (path lang : string)
    (this : document) : res value :=
  let key := if lang =? defaultLanguage options then path
             else overlay_key lang path in
  getPathValue this key.

(** The setter of [path_lang] follows the aggregate virtual, which it runs
    into. *)

(** *** The hooks of a marked field (lines 59-91) *)

(** [schemaType.options.get]; [fallbackLang] is the field's declared option,
    [v] the raw value of the base slot. *)
Definition schemaType_get (options : Options) (path : string)
    (fallbackLang : option string) (this : document) (v : value) : value :=
  if negb (has_getLanguage this)
     || (getLanguage options this =? defaultLanguage options)
  then v
  else
    let val := Host.get this (overlay_key (getLanguage options this) path) in
    if truthy val then val
    else if set_str fallbackLang then
      let val :=
        Host.get this
          (overlay_key (match fallbackLang with Some l => l | None => "" end)
             path) in
      if truthy val then val else v
    else Host.get this (overlay_key (getLanguage options this) path).

(** [schemaType.options.set]: the result is what the host stores in the base
    slot of the field. *)
Definition schemaType_set (options : Options) (path : string)
    (this : document) (v : value) : res (value * document) :=
  if negb (has_getLanguage this)
     || (getLanguage options this =? defaultLanguage options)
  then Ok (v, this)
  else
    let currentLang := getLanguage options this in
    stored <- getPathValue this "_i18n" ;;
    let aliased := truthy stored in
    let _i18n := or_else stored (VObj []) in
    cur <- get_member _i18n currentLang ;;
    _i18n <- set_member _i18n currentLang (or_else cur (VObj [])) ;;
    cur <- get_member _i18n currentLang ;;
    cur <- set_member cur path v ;;
    _i18n <- set_member _i18n currentLang cur ;;
    this1 <- setPathValue (sync aliased this _i18n) "_i18n" _i18n ;;
    let this2 := markModified this1 "_i18n" in
    defaultValue <- getPathValue this2 path ;;
    Ok (if isNew this2 && negb (truthy defaultValue) then v else defaultValue,
        this2).

(** Modelled from the spec: an ordinary write [doc.path = v] of a marked
    field.  The host runs the field's set hook and stores what the hook
    "hands back" in the base slot (section 4.2, step 5), marking the field
    as changed. *)
Definition assign_field (options : Options) (path : string)
    (this : document) (v : value) : res document :=
  '(r, this1) <- schemaType_set options path this v ;;
  Ok (markModified (setValue this1 path r) path).

(** *** The aggregate virtual [_i18n] (lines 96-126) *)

(** One turn of the inner loop: [value[lang] = value[lang] || {}] and
    [value[lang][fieldName] = value[lang][fieldName] || null]. *)
Definition fill_entry (fieldName lang : string) (v : value) : res value :=
  cur <- get_member v lang ;;
  v <- set_member v lang (or_else cur (VObj [])) ;;
  cur <- get_member v lang ;;
  old <- get_member cur fieldName ;;
  cur <- set_member cur fieldName (or_else old VNull) ;;
  set_member v lang cur.

(** One turn of the outer loop; [self] is read while [value] is being
    filled, so it is read through [sync]. *)
Definition fill_field (options : Options) (aliased : bool) (self : document)
    (fieldName : string) (v : value) : res value :=
  v <- forEach (fill_entry fieldName) (languages options) v ;;
  base <- getPathValue (sync aliased self v) fieldName ;;
  cur <- get_member v (defaultLanguage options) ;;
  cur <- set_member cur fieldName base ;;
  set_member v (defaultLanguage options) cur.

(** The getter; it answers with the filled map, and the document is left
    with whatever was filled into its own stored object. *)
Definition virtual_i18n_get (options : Options) (i18nFields : list string)
    (this : document) : res (value * document) :=
  stored <- getPathValue this "_i18n" ;;
  let aliased := truthy stored in
  v <- set_member (or_else stored (VObj [])) (defaultLanguage options)
         (VObj []) ;;
  v <- forEach (fill_field options aliased this) i18nFields v ;;
  Ok (v, sync aliased this v).

(** Modelled from the spec: the host's "virtual fields with custom
    read/write behavior", for the call [this.set(key, v)] of line 55 with a
    key below [_i18n].  The host is not part of the repository's source;
    what it does with such a key is this.  [_i18n] is a virtual of the
    schema (line 97), and for a path below a virtual the host assigns along
    the path starting at the document: [mpath.set(key, v, this)].  The first
    step, [this._i18n], is the getter above; the assignment goes into the
    map the getter answered with, which is the stored overlay when there is
    one and a fresh object otherwise.  Nothing is marked as changed, and the
    setter of [_i18n] is not run. *)
Definition set_below_i18n (options : Options) (i18nFields : list string)
    (this : document) (key : string) (v : value) : res document :=
  stored <- getPathValue this "_i18n" ;;
  '(value, _) <- virtual_i18n_get options i18nFields this ;;
  Ok (sync (truthy stored) this (mpath_set (tl (split_path key)) v value)).

(** The setter of the virtual [path_lang] (lines 49-57); [i18nFields] is the
    list the plugin call has collected, which the getter of [_i18n]
    reads. *)
Definition virtual_lang_set (options : Options) (i18nFields : list string)
    (path lang : string) (this : document) (v : value) : res document :=
  if lang =? defaultLanguage options then
    this1 <- setPathValue this path v ;;
    Ok (markModified this1 path)
  else
    set_below_i18n options i18nFields this (overlay_key lang path) v.

(** The body of the setter's [forEach] over the keys of the default-language
    entry. *)
Definition write_base (entry : value) (key : string) (self : document)
  : res document :=
  x <- get_member entry key ;;
  self <- setPathValue self key x ;;
  Ok (markModified self key).

(** The setter; the entries of the payload are maps (for an entry that is a
    string, [Object.keys] would list its indices). *)
Definition virtual_i18n_set (options : Options) (this : document) (v : value)
  : res document :=
  entry <- get_member v (defaultLanguage options) ;;
  '(v, this) <-
    (if truthy entry then
       this <- forEach (write_base entry)
                 (match entry with VObj l => keys l | _ => [] end) this ;;
       v <- delete_member v (defaultLanguage options) ;;
       Ok (v, this)
     else Ok (v, this)) ;;
  this <- setPathValue this "_i18n" v ;;
  Ok (markModified this "_i18n").

End Plugin.
Export Plugin.

(** ** Schema-level statics (lines 145-191) *)

Module Static.

(** A schema as [eachPath] sees it: its paths, each with the nested schema
    of a sub-document or of an array of sub-documents, if any.  [plugin] is
    the [options] object the plugin was applied to this schema with, as an
    index into the heap of all such objects. *)
Inductive Schema : Type :=
| mkSchema (plugin : option nat) (paths : list (string * option Schema)).

Definition heap : Type := list Options.

Fixpoint assign (r : nat) (f : Options -> Options) (h : heap) : heap :=
  match h, r with
  | [], _ => []
  | o :: t, O => f o :: t
  | o :: t, S r' => o :: assign r' f t
  end.

(** [updateLanguage] of [setLanguage].  [options] is the variable captured
    by the plugin call that installed the static; it is the same object at
    every level of the walk. *)
Fixpoint updateLanguage (options : nat) (schema : Schema) (lang : string)
    (h : heap) : heap :=
  match schema with
  | mkSchema _ paths =>
      let h := assign options (fun o => with_language o lang) h in
      (fix eachPath (ps : list (string * option Schema)) (h : heap) : heap :=
         match ps with
         | [] => h
         | (_, Some sub) :: t => eachPath t (updateLanguage options sub lang h)
         | (_, None) :: t => eachPath t h
         end) paths h
  end.

(** [updateLanguage] of [setDefaultLanguage]. *)
Fixpoint updateDefaultLanguage (options : nat) (schema : Schema)
    (lang : string) (h : heap) : heap :=
  match schema with
  | mkSchema _ paths =>
      let h := assign options (fun o => with_defaultLanguage o lang) h in
      (fix eachPath (ps : list (string * option Schema)) (h : heap) : heap :=
         match ps with
         | [] => h
         | (_, Some sub) :: t =>
             eachPath t (updateDefaultLanguage options sub lang h)
         | (_, None) :: t => eachPath t h
         end) paths h
  end.

Definition getLanguages (options : nat) (h : heap) : list string :=
  match nth_error h options with
  | Some o => languages o
  | None => []
  end.

Definition setLanguage (options : nat) (schema : Schema) (lang : value)
    (h : heap) : heap :=
  if truthy lang && includes (getLanguages options h) lang then
    match lang with
    | VStr l => updateLanguage options schema l h
    | _ => h
    end
  else h.

Definition setDefaultLanguage (options : nat) (schema : Schema) (lang : value)
    (h : heap) : heap :=
  if truthy lang && includes (getLanguages options h) lang then
    match lang with
    | VStr l => updateDefaultLanguage options schema l h
    | _ => h
    end
  else h.

(** The default language a schema's own accessors work with. *)
Definition defaultLanguageOf (schema : Schema) (h : heap) : option string :=
  match schema with
  | mkSchema (Some r) _ => option_map defaultLanguage (nth_error h r)
  | mkSchema None _ => None
  end.

Definition languageOf (schema : Schema) (h : heap) : option string :=
  match schema with
  | mkSchema (Some r) _ =>
      match nth_error h r with
      | Some o => language o
      | None => None
      end
  | mkSchema None _ => None
  end.

(** [getDefaultLanguage] (lines 149-151). *)
Definition getDefaultLanguage (options : nat) (h : heap) : option string :=
  option_map defaultLanguage (nth_error h options).

End Static.

(** ** Installing the plugin on a schema (lines 34-58) *)

Module Install.

(** The declared options of a path that the plugin reads. *)
Record SchemaTypeOptions : Type := mkSchemaTypeOptions {
  i18n : bool;                     (* [schemaType.options.i18n] is set *)
  fallbackLang : option string
}.

(** What the walk over the paths has installed so far. *)
Record installed : Type := mkInstalled {
  i18nFields : list string;
  virtuals : list string           (* names given to [schema.virtual] *)
}.

(** The name of a per-language virtual: [`${path}_${lang}`]. *)
Definition virtual_name (path lang : string) : string :=
  path ++ "_" ++ lang.

(** The callback of [schema.eachPath]. *)
Definition onPath (languages : list string)
    (p : string * SchemaTypeOptions) (acc : installed) : installed :=
  if negb (i18n (snd p)) then acc
  else mkInstalled (i18nFields acc ++ [fst p])
         (virtuals acc ++ map (virtual_name (fst p)) languages).

Fixpoint eachPath (languages : list string)
    (paths : list (string * SchemaTypeOptions)) (acc : installed)
  : installed :=
  match paths with
  | [] => acc
  | p :: rest => eachPath languages rest (onPath languages p acc)
  end.

(** The plugin call, as far as names go: the per-language virtuals of the
    marked paths, then the aggregate virtual. *)
Definition mongooseI18nExtra (options : Options)
    (paths : list (string * SchemaTypeOptions)) : installed :=
  let acc := eachPath (languages options) paths (mkInstalled [] []) in
  mkInstalled (i18nFields acc) (virtuals acc ++ ["_i18n"]).

Fixpoint no_underscore (s : string) : bool :=
  match s with
  | EmptyString => true
  | String c rest => negb (Ascii.eqb c "_"%char) && no_underscore rest
  end.

End Install.

(** ** The connection-wide setters (lines 193-234) *)

Module Connection.

(** A model registered on a connection: its schema, and the options object
    of its statics when the plugin was applied to the schema
    ([model.setDefaultLanguage] and [model.setLanguage] are present
    together). *)
Record Model : Type := mkModel {
  statics : option nat;
  schema : Static.Schema
}.

(** [this.models], in the order of [for ... in]. *)
Definition models : Type := list (string * Model).

(** [model.db.setDefaultLanguage]. *)
Fixpoint setDefaultLanguage (ms : models) (lang : value) (h : Static.heap)
  : Static.heap :=
  match ms with
  | [] => h
  | (_, m) :: rest =>
      setDefaultLanguage rest lang
        (match statics m with
         | Some r => Static.setDefaultLanguage r (schema m) lang h
         | None => h
         end)
  end.

(** [model.db.setLanguage]. *)
Fixpoint setLanguage (ms : models) (lang : value) (h : Static.heap)
  : Static.heap :=
  match ms with
  | [] => h
  | (_, m) :: rest =>
      setLanguage rest lang
        (match statics m with
         | Some r => Static.setLanguage r (schema m) lang h
         | None => h
         end)
  end.

(** Which connections carry the two functions, and whether the process-wide
    aliases [mongoose.setDefaultLanguage] and [mongoose.setLanguage] are set.
    Connections are numbered; [0] is the default one,
    [mongoose.connection]. *)
Record registry : Type := mkRegistry {
  db_setDefaultLanguage : list nat;
  db_setLanguage : list nat;
  mongoose_setDefaultLanguage : bool;
  mongoose_setLanguage : bool
}.

Definition has (db : nat) (l : list nat) : bool := existsb (Nat.eqb db) l.

(** The handler of the schema's "init" event, for a model of connection
    [db]. *)
Definition init (db : nat) (g : registry) : registry :=
  if has db (db_setDefaultLanguage g) then g
  else
    let dbs1 := db :: db_setDefaultLanguage g in
    let dbs2 := db :: db_setLanguage g in
    mkRegistry dbs1 dbs2
      (if negb (mongoose_setDefaultLanguage g) then has 0 dbs1
       else mongoose_setDefaultLanguage g)
      (if negb (mongoose_setLanguage g) then has 0 dbs2
       else mongoose_setLanguage g).

Definition start : registry := mkRegistry [] [] false false.

(** The registry after the models of the given connections were set up, in
    that order. *)
Definition after (dbs : list nat) : registry :=
  fold_left (fun g db => init db g) dbs start.

(** The options object [r] belongs to a model of the connection. *)
Definition registered (r : nat) (ms : models) : bool :=
  existsb (fun nm => match statics (snd nm) with
                     | Some r' => Nat.eqb r r'
                     | None => false
                     end) ms.

End Connection.

(** ** Vocabulary of the statements *)

(** A document of a schema the plugin was applied to, on a host that offers
    one of the two read primitives and one of the two write primitives. *)
Definition is_document (d : document) : bool :=
  (has_getValue d || has___getValue d)
  && (has_setValue d || has___setValue d)
  && has_getLanguage d.

(** The overlay a document stores. *)
Definition overlay (d : document) : value := getValue d "_i18n".

(** A slot that is empty or holds an object. *)
Definition shaped (v : value) : bool := negb (truthy v) || is_obj v.

(** The overlay has the shape of the data model, language to field to value:
    it is empty or an object whose entries are empty or objects. *)
Definition overlay_shaped (v : value) : bool :=
  match v with
  | VObj l => forallb (fun kv => shaped (snd kv)) l
  | _ => negb (truthy v)
  end.

(** The same of the entries of a map that is being filled. *)
Definition entries_shaped (l : list (string * value)) : Prop :=
  forallb (fun kv => shaped (snd kv)) l = true.

(** The invariant of the data model: the stored overlay holds nothing under
    the default language. *)
Definition no_default_entry (options : Options) (d : document) : bool :=
  negb (truthy (member (overlay d) (defaultLanguage options))).

(** [overlay[lang][field]] as an own property: [None] when the key is not
    there. *)
Definition entry (v : value) (lang field : string) : option value :=
  match v with
  | VObj l =>
      match lookup lang l with
      | Some (VObj m) => lookup field m
      | _ => None
      end
  | _ => None
  end.

(** The map has the key [field] under the language [lang]. *)
Definition has_entry (v : value) (lang field : string) : bool :=
  match entry v lang field with Some _ => true | None => false end.

(** What the aggregate view shows for an overlay slot: its content, or
    [null] when it is empty. *)
Definition shown (o : option value) : value :=
  match o with
  | Some x => or_else x VNull
  | None => VNull
  end.

(** A marked field is a stored path of its own, not one below [_i18n]. *)
Definition base_path (path : string) : bool :=
  negb (hd "" (split_path path) =? "_i18n").

(** The paths the plugin transforms: those declared with the [i18n]
    option. *)
Definition marked (paths : list (string * Install.SchemaTypeOptions))
  : list string :=
  map fst (filter (fun p => Install.i18n (snd p)) paths).

(** The state of the connections once the models of [dbs] were set up: both
    functions sit on the same connections, once each, these are the
    connections of [dbs], and each process-wide alias is set exactly when
    the default connection carries its function. *)
Definition registry_ok (g : Connection.registry) (dbs : list nat) : Prop :=
  Connection.db_setLanguage g = Connection.db_setDefaultLanguage g
  /\ NoDup (Connection.db_setDefaultLanguage g)
  /\ (forall db, Connection.has db (Connection.db_setDefaultLanguage g) = true
                 <-> In db dbs)
  /\ Connection.mongoose_setDefaultLanguage g
     = Connection.has 0 (Connection.db_setDefaultLanguage g)
  /\ Connection.mongoose_setLanguage g
     = Connection.has 0 (Connection.db_setLanguage g).

(** A language code or field name without a dot: one step of a path. *)
Fixpoint no_dot (s : string) : bool :=
  match s with
  | EmptyString => true
  | String c rest => negb (Ascii.eqb c "."%char) && no_dot rest
  end.

(** ** Sample data *)

Module Sample.

Definition options : Options := mkOptions "en" ["en"; "fr"; "de"] None.

(** A stored document (not new) with base title "Hello"; the caller chose
    French for it. *)
Definition doc : document :=
  mkDocument false true false true true
    (VObj [("title", VStr "Hello")]) [] (Some "fr") false [].

(** The same document with a French title in its overlay, read in German. *)
Definition doc_fr : document :=
  mkDocument false true false true true
    (VObj [("title", VStr "Hello");
           ("_i18n", VObj [("fr", VObj [("title", VStr "Bonjour")])])])
    [] (Some "de") false [].

(** The same stored content, read in the default language: no language was
    chosen for the document. *)
Definition doc_en : document :=
  mkDocument false true false true true
    (VObj [("title", VStr "Hello");
           ("_i18n", VObj [("fr", VObj [("title", VStr "Bonjour")])])])
    [] None false [].

(** A new document, nothing stored yet, French chosen. *)
Definition doc_new : document :=
  mkDocument false true false true true (VObj []) [] (Some "fr") true [].

(** An object that offers none of the host's access primitives. *)
Definition plain : document :=
  mkDocument false false false false false VUndef
    [("title", VStr "Hello")] None false [].

Definition child : Static.Schema :=
  Static.mkSchema (Some 1%nat) [("title", None)].

Definition parent : Static.Schema :=
  Static.mkSchema (Some 0%nat) [("name", None); ("child", Some child)].

(** The parent and the child schema were each given an options object of
    their own. *)
Definition heap : Static.heap :=
  [options; mkOptions "en" ["en"; "fr"; "de"] None].

(** A second options object, without German. *)
Definition options_en_fr : Options := mkOptions "en" ["en"; "fr"] None.

Definition heap2 : Static.heap := [options; options_en_fr].

(** The models of a connection: two plugged ones, each with its own options
    object, and one the plugin was not applied to. *)
Definition models : Connection.models :=
  [("Article", Connection.mkModel (Some 0%nat) parent);
   ("Note", Connection.mkModel (Some 1%nat) child);
   ("Log", Connection.mkModel None (Static.mkSchema None []))].

(** The declared paths of a schema: two marked ones and a plain one. *)
Definition paths : list (string * Install.SchemaTypeOptions) :=
  [("title", Install.mkSchemaTypeOptions true (Some "en"));
   ("views", Install.mkSchemaTypeOptions false None);
   ("body", Install.mkSchemaTypeOptions true None)].

(** A map for the setter of the aggregate view. *)
Definition payload : value :=
  VObj [("en", VObj [("title", VStr "Hi")]);
        ("fr", VObj [("title", VStr "Salut")])].

End Sample.

(** Induction over a schema and the schemas nested in its paths. *)
Section SchemaInduction.

Variable P : Static.Schema -> Prop.

Hypothesis step : forall plugin paths,
  Forall (fun p => match snd p with Some s => P s | None => True end) paths ->
  P (Static.mkSchema plugin paths).

Fixpoint Schema_nested_ind (s : Static.Schema) : P s :=
  match s with
  | Static.mkSchema plugin paths =>
      step plugin paths
        ((fix go (ps : list (string * option Static.Schema)) :
            Forall (fun p => match snd p with
                             | Some s => P s
                             | None => True
                             end) ps :=
            match ps with
            | [] => Forall_nil _
            | (n, Some sub) :: t =>
                Forall_cons (n, Some sub) (Schema_nested_ind sub) (go t)
            | (n, None) :: t => Forall_cons (n, None) I (go t)
            end) paths)
  end.

End SchemaInduction.

(** A slot outside the ones a loop fills: split the reason why, with the
    membership in the list that is being walked unfolded. *)
Ltac outside H :=
  destruct H as [H|H]; [left|right]; cbn [In] in *.

(** ** Basic facts *)

Lemma lookup_upd_same k v l : lookup k (upd k v l) = Some v.
Proof.
  induction l as [|[k' v'] t IH]; simpl.
  - now rewrite String.eqb_refl.
  - destruct (k =? k') eqn:E; simpl; rewrite ?String.eqb_refl, ?E; auto.
Qed.

Lemma lookup_upd_other k k' v l :
  k' <> k -> lookup k' (upd k v l) = lookup k' l.
Proof.
  intros Hne. induction l as [|[k0 v0] t IH]; simpl.
  - apply String.eqb_neq in Hne. now rewrite Hne.
  - destruct (k =? k0) eqn:E; simpl.
    + apply String.eqb_eq in E. subst k0.
      apply String.eqb_neq in Hne. now rewrite Hne.
    + now rewrite IH.
Qed.

Lemma member_upd_same k v l : member (VObj (upd k v l)) k = v.
Proof. simpl. now rewrite lookup_upd_same. Qed.

Lemma member_upd_other k k' v l :
  k' <> k -> member (VObj (upd k v l)) k' = member (VObj l) k'.
Proof. intros H. simpl. now rewrite lookup_upd_other. Qed.

Lemma split_path_nonempty s : split_path s <> [].
Proof.
  destruct s as [|c r]; simpl; [discriminate|].
  destruct (Ascii.eqb c "."); [discriminate|].
  destruct (split_path r); discriminate.
Qed.

Lemma store_get_undef parts : store_get parts VUndef = VUndef.
Proof. destruct parts; reflexivity. Qed.

Lemma store_get_one k o : store_get [k] o = member o k.
Proof. now destruct o. Qed.

Lemma store_get_cons_one a ps o :
  store_get (a :: ps) o = store_get ps (member o a).
Proof. destruct o; simpl; try reflexivity; now rewrite store_get_undef. Qed.

(** Reading a path back after writing it gives what was written. *)
Lemma store_get_set parts v o : store_get parts (store_set parts v o) = v.
Proof.
  revert o. induction parts as [|p rest IH]; intros o; simpl; [reflexivity|].
  destruct o; simpl; rewrite ?String.eqb_refl, ?lookup_upd_same; apply IH.
Qed.

(** Writing the overlay leaves every base path as it was. *)
Lemma store_get_set_i18n path x o :
  base_path path = true ->
  store_get (split_path path) (store_set ["_i18n"] x o)
  = store_get (split_path path) o.
Proof.
  unfold base_path. intros H.
  destruct (split_path path) as [|p rest] eqn:E.
  - now apply split_path_nonempty in E.
  - simpl in H. apply negb_true_iff, String.eqb_neq in H.
    destruct o; simpl; try (apply String.eqb_neq in H; rewrite H;
      apply store_get_undef).
    now rewrite lookup_upd_other.
Qed.

Lemma getPathValue_document d path :
  has_getValue d || has___getValue d = true ->
  getPathValue d path = Ok (getValue d path).
Proof.
  unfold getPathValue, invoke. intros H.
  destruct (has_getValue d); [reflexivity|].
  simpl in H. now rewrite H.
Qed.

Lemma setPathValue_document d path v :
  has_setValue d || has___setValue d = true ->
  setPathValue d path v = Ok (setValue d path v).
Proof.
  unfold setPathValue, invoke. intros H.
  destruct (has_setValue d); [reflexivity|].
  simpl in H. now rewrite H.
Qed.

Lemma is_document_caps d :
  is_document d = true ->
  has_getValue d || has___getValue d = true
  /\ has_setValue d || has___setValue d = true
  /\ has_getLanguage d = true.
Proof.
  unfold is_document. intros H.
  apply andb_true_iff in H as [H H3]. apply andb_true_iff in H as [H1 H2].
  auto.
Qed.

(** ** Field access helpers *)

(** C10, as stated, fails on the write path: an object that offers neither
    [setValue] nor [$__setValue] makes [setPathValue] throw. *)
Lemma C10_write_throws :
  setPathValue Sample.plain "title" (VStr "Bonjour") = TypeError.
Proof. reflexivity. Qed.

(** C10 (amended): [getPathValue] never throws; it answers with [getValue]
    when the object has it, else with [$__getValue], else with the object's
    own property when that is set, else with the generic path accessor over
    [_doc].  [setPathValue] tries [setValue] and then [$__setValue] and has no
    generic accessor behind them: with neither it throws a [TypeError]. *)
Theorem C10_access_helpers (d : document) (path : string) (v : value) :
  getPathValue d path
  = Ok (if has_getValue d || has___getValue d then getValue d path
        else if truthy (member (VObj (view d)) path)
             then member (VObj (view d)) path
             else mpath_get "_doc" (split_path path) (VObj (view d)))
  /\ setPathValue d path v
     = if has_setValue d || has___setValue d then Ok (setValue d path v)
       else TypeError.
Proof.
  unfold getPathValue, setPathValue, invoke.
  destruct (has_getValue d), (has___getValue d), (has_setValue d),
    (has___setValue d); simpl; split; try reflexivity;
    destruct (truthy _); reflexivity.
Qed.

(** ** Language selection *)

(** C7: a language code that is empty or not among the configured languages
    changes nothing, and nothing is thrown, in the instance-level setter and
    in the two schema-level setters. *)
Theorem C7_invalid_language_noop (options : Options) (this : document)
    (r : nat) (schema : Static.Schema) (h : Static.heap) (lang : value) :
  nth_error h r = Some options ->
  truthy lang = false \/ includes (languages options) lang = false ->
  setLanguage options this lang = this
  /\ Static.setLanguage r schema lang h = h
  /\ Static.setDefaultLanguage r schema lang h = h.
Proof.
  intros Hr Hbad.
  unfold setLanguage, Static.setLanguage, Static.setDefaultLanguage,
    Static.getLanguages, getLanguages.
  rewrite Hr.
  assert (E : truthy lang && includes (languages options) lang = false).
  { destruct Hbad as [E|E]; rewrite E; [reflexivity|apply andb_false_r]. }
  rewrite E. auto.
Qed.

Lemma C7_invalid_language_noop_witness :
  setLanguage Sample.options Sample.doc (VStr "es") = Sample.doc
  /\ Static.setLanguage 0 Sample.parent (VStr "es") Sample.heap = Sample.heap
  /\ Static.setDefaultLanguage 0 Sample.parent (VStr "es") Sample.heap
     = Sample.heap.
Proof.
  apply (C7_invalid_language_noop Sample.options Sample.doc 0 Sample.parent
           Sample.heap (VStr "es")).
  - reflexivity.
  - right. reflexivity.
Defined.

(** The walk over the nested schemas assigns, at every schema it visits, the
    one options object its closure captured. *)
Lemma assign_idem r (f : Options -> Options) h :
  (forall o, f (f o) = f o) -> Static.assign r f (Static.assign r f h)
                               = Static.assign r f h.
Proof.
  intros Hf. revert r.
  induction h as [|o t IH]; intros [|r]; simpl; rewrite ?Hf, ?IH; reflexivity.
Qed.

Lemma assign_other r r' f h :
  r' <> r -> nth_error (Static.assign r f h) r' = nth_error h r'.
Proof.
  revert r r'.
  induction h as [|o t IH]; intros [|r] [|r'] Hne; simpl;
    try congruence; try reflexivity.
  apply IH. congruence.
Qed.

Lemma updateDefaultLanguage_assign schema r lang h :
  Static.updateDefaultLanguage r schema lang h
  = Static.assign r (fun o => with_defaultLanguage o lang) h.
Proof.
  revert h. induction schema as [plugin paths IH] using Schema_nested_ind.
  intros h. simpl.
  set (f := fun o => with_defaultLanguage o lang).
  assert (Hf : forall o, f (f o) = f o) by reflexivity.
  pose proof (assign_idem r f h Hf) as Hfix.
  revert Hfix. generalize (Static.assign r f h) as h1.
  induction IH as [|[n [sub|]] t Hsub _ IHt]; intros h1 Hfix; simpl.
  - reflexivity.
  - rewrite Hsub. fold f. rewrite Hfix. now apply IHt.
  - now apply IHt.
Qed.

Lemma updateLanguage_assign schema r lang h :
  Static.updateLanguage r schema lang h
  = Static.assign r (fun o => with_language o lang) h.
Proof.
  revert h. induction schema as [plugin paths IH] using Schema_nested_ind.
  intros h. simpl.
  set (f := fun o => with_language o lang).
  assert (Hf : forall o, f (f o) = f o) by reflexivity.
  pose proof (assign_idem r f h Hf) as Hfix.
  revert Hfix. generalize (Static.assign r f h) as h1.
  induction IH as [|[n [sub|]] t Hsub _ IHt]; intros h1 Hfix; simpl.
  - reflexivity.
  - rewrite Hsub. fold f. rewrite Hfix. now apply IHt.
  - now apply IHt.
Qed.

(** Whatever the schema graph, the two schema-level setters leave every
    options object other than the caller's as it was. *)
Lemma static_setters_frame r r' schema lang h :
  r' <> r ->
  nth_error (Static.setDefaultLanguage r schema lang h) r' = nth_error h r'
  /\ nth_error (Static.setLanguage r schema lang h) r' = nth_error h r'.
Proof.
  intros Hne. unfold Static.setDefaultLanguage, Static.setLanguage.
  destruct (truthy lang && includes (Static.getLanguages r h) lang);
    [|split; reflexivity].
  destruct lang; try (split; reflexivity).
  rewrite updateDefaultLanguage_assign, updateLanguage_assign.
  split; now apply assign_other.
Qed.

(** C6: the parent schema and its nested schema each have an options object
    of their own.  The default-language setter of the parent, called with
    the configured code "fr", walks into the nested schema but writes the
    parent's object there again: the nested schema keeps "en".  The
    active-language setter behaves the same way. *)
Theorem C6_nested_schema_not_updated :
  let h1 := Static.setDefaultLanguage 0 Sample.parent (VStr "fr") Sample.heap in
  let h2 := Static.setLanguage 0 Sample.parent (VStr "fr") Sample.heap in
  Static.defaultLanguageOf Sample.parent h1 = Some "fr"
  /\ Static.defaultLanguageOf Sample.child h1 = Some "en"
  /\ Static.languageOf Sample.parent h2 = Some "fr"
  /\ Static.languageOf Sample.child h2 = None.
Proof. repeat split. Qed.

(** ** Reading a marked field *)

(** C1, as stated, fails: French is active and is not the default
    language, the field declares no fallback language, the overlay has no
    French title and the base title is "Hello"; the read answers
    [undefined], not "Hello". *)
Lemma C1_read_gives_undefined :
  getLanguage Sample.options Sample.doc = "fr"
  /\ defaultLanguage Sample.options = "en"
  /\ entry (overlay Sample.doc) "fr" "title" = None
  /\ getValue Sample.doc "title" = VStr "Hello"
  /\ schemaType_get Sample.options "title" None Sample.doc (VStr "Hello")
     = VUndef
  /\ schemaType_get Sample.options "title" None Sample.doc (VStr "Hello")
     <> VStr "Hello".
Proof. repeat split. discriminate. Qed.

(** C1 (amended): when the active language differs from the default
    language, the field declares no fallback language and the overlay slot
    of the active language is empty, the read answers with that overlay
    lookup itself, whatever the base value: [undefined] when the entry is
    absent.  The read does not fail. *)
Theorem C1_read_without_fallback (options : Options) (path : string)
    (fallbackLang : option string) (this : document) (v : value) :
  has_getLanguage this = true ->
  getLanguage options this <> defaultLanguage options ->
  set_str fallbackLang = false ->
  truthy (Host.get this (overlay_key (getLanguage options this) path))
  = false ->
  schemaType_get options path fallbackLang this v
  = Host.get this (overlay_key (getLanguage options this) path).
Proof.
  intros Hm Hl Hf He. unfold schemaType_get.
  apply String.eqb_neq in Hl. now rewrite Hm, Hl, He, Hf.
Qed.

Lemma C1_read_without_fallback_witness :
  schemaType_get Sample.options "title" None Sample.doc (VStr "Hello")
  = Host.get Sample.doc
      (overlay_key (getLanguage Sample.options Sample.doc) "title").
Proof.
  apply (C1_read_without_fallback Sample.options "title" None Sample.doc
           (VStr "Hello")).
  - reflexivity.
  - discriminate.
  - reflexivity.
  - reflexivity.
Defined.



(** ** Per-language virtuals *)

Lemma split_overlay_key lang path :
  split_path (overlay_key lang path)
  = "_i18n" :: split_path (lang ++ "." ++ path).
Proof. reflexivity. Qed.

Lemma store_set_cons p rest v o :
  store_set (p :: rest) v o = store_set [p] (store_set rest v (member o p)) o.
Proof. destruct o; reflexivity. Qed.

Lemma split_path_no_dot s : no_dot s = true -> split_path s = [s].
Proof.
  induction s as [|c r IH]; simpl; [reflexivity|].
  intros H. apply andb_true_iff in H as [Hc Hr].
  apply negb_true_iff in Hc. now rewrite Hc, IH.
Qed.

Lemma split_path_dot a b :
  no_dot a = true -> split_path (a ++ "." ++ b) = a :: split_path b.
Proof.
  induction a as [|c r IH]; simpl; [reflexivity|].
  intros H. apply andb_true_iff in H as [Hc Hr].
  apply negb_true_iff in Hc. rewrite Hc. simpl in IH. now rewrite IH.
Qed.

Lemma store_get_last ps c o :
  store_get (ps ++ [c])%list o = member (store_get ps o) c.
Proof.
  revert o. induction ps as [|p t IH]; intros o; simpl.
  - now destruct o.
  - destruct o; try reflexivity. apply IH.
Qed.

(** For a language code and a field name that are single steps, the path
    [_i18n.lang.field] reads the overlay's own slot [overlay[lang][field]]. *)
Lemma overlay_slot_read this lang path :
  no_dot lang = true -> no_dot path = true ->
  Host.get this (overlay_key lang path)
  = member (member (overlay this) lang) path.
Proof.
  intros Hl Hp. unfold Host.get, overlay, getValue.
  rewrite split_overlay_key, split_path_dot, split_path_no_dot by assumption.
  change ["_i18n"; lang; path] with (["_i18n"; lang] ++ [path])%list.
  rewrite store_get_last.
  change ["_i18n"; lang] with (["_i18n"] ++ [lang])%list.
  now rewrite store_get_last.
Qed.

(** The getter of [path_lang] goes straight to storage: the base slot for
    the default language, else the walk along [path] below the overlay of
    [lang], with neither the active language nor a fallback language having
    a part in it. *)
Lemma virtual_lang_get_direct options path lang this :
  has_getValue this || has___getValue this = true ->
  (lang = defaultLanguage options ->
   virtual_lang_get options path lang this = Ok (getValue this path))
  /\ (lang <> defaultLanguage options -> no_dot lang = true ->
      virtual_lang_get options path lang this
      = Ok (store_get (split_path path) (member (overlay this) lang))).
Proof.
  intros Hg. unfold virtual_lang_get.
  rewrite getPathValue_document by assumption. split.
  - intros ->. now rewrite String.eqb_refl.
  - intros Hl Hn. apply String.eqb_neq in Hl. rewrite Hl. f_equal.
    unfold getValue. rewrite split_overlay_key, split_path_dot by assumption.
    rewrite !store_get_cons_one. f_equal. f_equal.
    symmetry. exact (store_get_one "_i18n" (_doc this)).
Qed.

(** The setter of [path_lang] for the default language writes the base slot
    and marks the field as changed. *)
Lemma virtual_lang_set_default options fields path this v :
  has_setValue this || has___setValue this = true ->
  exists this',
    virtual_lang_set options fields path (defaultLanguage options) this v
    = Ok this'
    /\ getValue this' path = v
    /\ In path (modifiedPaths this').
Proof.
  intros Hw. unfold virtual_lang_set. rewrite String.eqb_refl.
  rewrite setPathValue_document by assumption. cbn [bind].
  eexists. split; [reflexivity|]. split.
  - exact (store_get_set _ _ _).
  - now left.
Qed.

(** C8: the setter of [title_fr], for the non-default language "fr", does
    not write the overlay slot directly.  Its [this.set] of a path below the
    virtual [_i18n] goes through the getter of [_i18n]: on a document that
    stores no overlay the value lands in a fresh map and is lost, the
    document being after the write what it was before, nothing marked, and
    [title_fr] still reading [undefined]; on a document that stores an
    overlay the value reaches the slot, but the overlay is not marked as
    changed and has been filled by the getter, default language included.
    The getter of [title_fr], and the accessor of the default language, do
    what the claim says. *)
Theorem C8_virtual_write_lost_or_unmarked :
  (overlay Sample.doc = VUndef
   /\ virtual_lang_set Sample.options ["title"] "title" "fr" Sample.doc
        (VStr "Bonjour") = Ok Sample.doc
   /\ virtual_lang_get Sample.options "title" "fr" Sample.doc = Ok VUndef)
  /\ (exists this',
        virtual_lang_set Sample.options ["title"] "title" "fr" Sample.doc_fr
          (VStr "Salut") = Ok this'
        /\ member (member (overlay this') "fr") "title" = VStr "Salut"
        /\ isModified this' "_i18n" = false
        /\ modifiedPaths this' = []
        /\ member (overlay this') "en" = VObj [("title", VStr "Hello")]
        /\ member (member (overlay this') "de") "title" = VNull)
  /\ virtual_lang_get Sample.options "title" "fr" Sample.doc_fr
     = Ok (member (member (overlay Sample.doc_fr) "fr") "title")
  /\ virtual_lang_get Sample.options "title" "en" Sample.doc_fr
     = Ok (getValue Sample.doc_fr "title").
Proof.
  split; [repeat split|]. split; [|split; reflexivity].
  eexists. repeat split.
Qed.

(** ** Writing a marked field *)

Lemma shaped_cases v :
  shaped v = true -> truthy v = false \/ exists m, v = VObj m.
Proof.
  unfold shaped. destruct v; simpl; intros H; eauto;
    rewrite ?orb_false_r in H; apply negb_true_iff in H; auto.
Qed.

Lemma overlay_shaped_member v k :
  overlay_shaped v = true -> shaped (member v k) = true.
Proof.
  destruct v as [| | | | |l]; try reflexivity. simpl.
  induction l as [|[k' x] t IH]; simpl; [reflexivity|].
  intros H. apply andb_true_iff in H as [Hx Ht].
  destruct (k =? k'); auto.
Qed.

Lemma overlay_shaped_cases v :
  overlay_shaped v = true ->
  truthy v = false \/ exists l, v = VObj l.
Proof. destruct v; simpl; intros H; eauto; apply negb_true_iff in H; auto. Qed.

Lemma store_get_set_other p q ps qs x o :
  p <> q ->
  store_get (p :: ps) (store_set (q :: qs) x o) = store_get (p :: ps) o.
Proof.
  intros Hne. destruct o; simpl;
    try (apply String.eqb_neq in Hne; rewrite Hne; apply store_get_undef).
  now rewrite lookup_upd_other.
Qed.

Lemma getValue_base_after_overlay d path x :
  base_path path = true ->
  getValue (setValue d "_i18n" x) path = getValue d path.
Proof. intros H. exact (store_get_set_i18n path x (_doc d) H). Qed.

Lemma overlay_after_base d path x :
  base_path path = true ->
  overlay (setValue d path x) = overlay d.
Proof.
  unfold base_path, overlay, getValue, setValue. simpl. intros H.
  destruct (split_path path) as [|p rest] eqn:E.
  - now apply split_path_nonempty in E.
  - simpl in H. apply negb_true_iff, String.eqb_neq in H.
    apply (store_get_set_other "_i18n" p [] rest). congruence.
Qed.

(** The document once the set hook has stored the overlay [x]. *)
Lemma overlay_written aliased this x path :
  has_getValue this || has___getValue this = true ->
  has_setValue this || has___setValue this = true ->
  base_path path = true ->
  let this1 := markModified (setValue (sync aliased this x) "_i18n" x)
                 "_i18n" in
  has_setValue (sync aliased this x) || has___setValue (sync aliased this x)
  = true
  /\ has_getValue this1 || has___getValue this1 = true
  /\ overlay this1 = x
  /\ getValue this1 path = getValue this path
  /\ isNew this1 = isNew this.
Proof.
  intros Hg Hw Hb this1.
  assert (Hs : sync aliased this x = this
               \/ sync aliased this x
                  = with_doc this (store_set ["_i18n"] x (_doc this))).
  { unfold sync, alias_i18n. rewrite Hg. destruct aliased; auto. }
  split; [destruct Hs as [->| ->]; exact Hw|].
  split; [unfold this1; destruct Hs as [->| ->]; exact Hg|].
  split; [exact (store_get_set ["_i18n"] x _)|]. split.
  - change (getValue (setValue (sync aliased this x) "_i18n" x) path
            = getValue this path).
    rewrite getValue_base_after_overlay by assumption.
    destruct Hs as [->| ->]; [reflexivity|].
    exact (store_get_set_i18n path x (_doc this) Hb).
  - destruct Hs as [E|E]; unfold this1; rewrite E; reflexivity.
Qed.

(** The three assignments that put [v] into the overlay slot of [lang], in
    front of any continuation [K]. *)
Lemma write_slot stored lang path v :
  overlay_shaped stored = true ->
  exists x,
    entry x lang path = Some v
    /\ (forall k, k <> lang -> member x k = member stored k)
    /\ forall T (K : value -> res T),
        (cur <- get_member (or_else stored (VObj [])) lang ;;
         o <- set_member (or_else stored (VObj [])) lang
                (or_else cur (VObj [])) ;;
         cur <- get_member o lang ;;
         cur <- set_member cur path v ;;
         o <- set_member o lang cur ;;
         K o) = K x.
Proof.
  intros Hs.
  pose proof (overlay_shaped_member stored lang Hs) as Hm.
  destruct (overlay_shaped_cases stored Hs) as [Hf|[l ->]].
  - unfold or_else at 1 2. rewrite Hf. simpl. rewrite !String.eqb_refl. simpl.
    rewrite ?String.eqb_refl.
    eexists. split; [|split; [|reflexivity]].
    + simpl. rewrite ?String.eqb_refl. simpl. now rewrite ?String.eqb_refl.
    + intros k Hk. apply String.eqb_neq in Hk. simpl. rewrite Hk.
      destruct stored; try reflexivity. discriminate.
  - unfold or_else at 1 2. cbn [truthy get_member bind].
    destruct (shaped_cases _ Hm) as [Hf|[m Hm']].
    + unfold or_else. rewrite Hf. cbn [set_member bind get_member].
      rewrite member_upd_same. cbn [set_member bind].
      eexists. split; [|split; [|reflexivity]].
      * unfold entry. rewrite !lookup_upd_same. simpl.
        now rewrite ?String.eqb_refl.
      * intros k Hk. now rewrite !member_upd_other.
    + rewrite Hm'. unfold or_else. cbn [truthy set_member bind get_member].
      rewrite member_upd_same. cbn [set_member bind].
      eexists. split; [|split; [|reflexivity]].
      * unfold entry. now rewrite !lookup_upd_same.
      * intros k Hk. now rewrite !member_upd_other.
Qed.

(** The set hook while a non-default language is active. *)
Lemma schemaType_set_spec options path this v :
  is_document this = true ->
  getLanguage options this <> defaultLanguage options ->
  overlay_shaped (overlay this) = true ->
  base_path path = true ->
  exists this1,
    schemaType_set options path this v
    = Ok (if isNew this && negb (truthy (getValue this path)) then v
          else getValue this path, this1)
    /\ entry (overlay this1) (getLanguage options this) path = Some v
    /\ (forall k, k <> getLanguage options this ->
        member (overlay this1) k = member (overlay this) k)
    /\ In "_i18n" (modifiedPaths this1)
    /\ getValue this1 path = getValue this path.
Proof.
  intros Hd Hl Hs Hb.
  apply is_document_caps in Hd as [Hg [Hw Hm]].
  apply String.eqb_neq in Hl.
  destruct (write_slot (overlay this) (getLanguage options this) path v Hs)
    as [x [He [Hk HK]]].
  destruct (overlay_written (truthy (overlay this)) this x path Hg Hw Hb)
    as [Hw1 [Hg1 [Hov [Hbase Hnew]]]].
  set (this1 := markModified
                  (setValue (sync (truthy (overlay this)) this x) "_i18n" x)
                  "_i18n") in *.
  exists this1. rewrite Hov. split; [|split; [|split; [|split]]];
    [|exact He|exact Hk|now left|exact Hbase].
  unfold schemaType_set. rewrite Hm, Hl. cbn [negb orb].
  rewrite getPathValue_document by assumption. cbn [bind].
  fold (overlay this). rewrite HK.
  rewrite setPathValue_document by assumption. cbn [bind]. fold this1.
  rewrite getPathValue_document by assumption. cbn [bind].
  now rewrite Hbase, Hnew.
Qed.

(** C2: a write of [v] to a marked field while a non-default language [L]
    is active puts [v] into the overlay slot of [L] and marks the overlay as
    changed.  The hook hands back [v] when the document is new and its base
    slot is empty, and the base value otherwise; the host stores what was
    handed back in the base slot, so the slot receives [v] in exactly that
    case and keeps its value in every other. *)
Theorem C2_write_non_default (options : Options) (path : string)
    (this : document) (v : value) :
  is_document this = true ->
  getLanguage options this <> defaultLanguage options ->
  overlay_shaped (overlay this) = true ->
  base_path path = true ->
  let L := getLanguage options this in
  let handed_back :=
    if isNew this && negb (truthy (getValue this path)) then v
    else getValue this path in
  exists this1 this2,
    schemaType_set options path this v = Ok (handed_back, this1)
    /\ entry (overlay this1) L path = Some v
    /\ In "_i18n" (modifiedPaths this1)
    /\ getValue this1 path = getValue this path
    /\ assign_field options path this v = Ok this2
    /\ getValue this2 path = handed_back
    /\ entry (overlay this2) L path = Some v
    /\ isModified this2 "_i18n" = true.
Proof.
  intros Hd Hl Hs Hb L handed_back.
  destruct (schemaType_set_spec options path this v Hd Hl Hs Hb)
    as [this1 [Hset [He [_ [Hmod Hbase]]]]].
  fold L handed_back in Hset, He.
  exists this1. eexists. split; [exact Hset|].
  split; [exact He|]. split; [exact Hmod|]. split; [exact Hbase|].
  unfold assign_field. rewrite Hset. cbn [bind].
  split; [reflexivity|]. split; [exact (store_get_set _ _ _)|]. split.
  - change (entry (overlay (setValue this1 path handed_back)) L path = Some v).
    now rewrite overlay_after_base.
  - unfold isModified.
    cbn [modifiedPaths markModified setValue with_doc existsb].
    apply orb_true_iff. right.
    apply existsb_exists. exists "_i18n". split; [exact Hmod|reflexivity].
Qed.

Lemma C2_write_non_default_witness :
  exists this1 this2,
    schemaType_set Sample.options "title" Sample.doc_new (VStr "Bonjour")
    = Ok (VStr "Bonjour", this1)
    /\ entry (overlay this1) "fr" "title" = Some (VStr "Bonjour")
    /\ In "_i18n" (modifiedPaths this1)
    /\ getValue this1 "title" = getValue Sample.doc_new "title"
    /\ assign_field Sample.options "title" Sample.doc_new (VStr "Bonjour")
       = Ok this2
    /\ getValue this2 "title" = VStr "Bonjour"
    /\ entry (overlay this2) "fr" "title" = Some (VStr "Bonjour")
    /\ isModified this2 "_i18n" = true.
Proof.
  apply (C2_write_non_default Sample.options "title" Sample.doc_new
           (VStr "Bonjour")).
  - reflexivity.
  - discriminate.
  - reflexivity.
  - reflexivity.
Defined.

(** ** The aggregate view *)

Lemma entries_shaped_upd k x l :
  shaped x = true -> entries_shaped l -> entries_shaped (upd k x l).
Proof.
  unfold entries_shaped. intros Hx.
  induction l as [|[k' x'] t IH]; simpl; intros H.
  - now rewrite Hx.
  - apply andb_true_iff in H as [H1 H2].
    destruct (k =? k'); simpl; rewrite ?Hx, ?H1; auto.
Qed.

Lemma entries_shaped_member k l :
  entries_shaped l -> shaped (member (VObj l) k) = true.
Proof. intros H. now apply (overlay_shaped_member (VObj l) k). Qed.

Lemma entry_upd_same k m l f :
  entry (VObj (upd k (VObj m) l)) k f = lookup f m.
Proof. unfold entry. now rewrite lookup_upd_same. Qed.

Lemma entry_upd_other k k' x l f :
  k' <> k -> entry (VObj (upd k x l)) k' f = entry (VObj l) k' f.
Proof. intros H. unfold entry. now rewrite lookup_upd_other. Qed.

Lemma shown_idem o : shown (Some (shown o)) = shown o.
Proof.
  destruct o as [x|]; [|reflexivity].
  unfold shown, or_else. destruct (truthy x) eqn:E; [now rewrite E|reflexivity].
Qed.

Lemma is_obj_member_upd k k' x l :
  is_obj x = true ->
  is_obj (member (VObj l) k') = true ->
  is_obj (member (VObj (upd k x l)) k') = true.
Proof.
  intros Hx H. destruct (String.eqb_spec k' k) as [->|Hne].
  - now rewrite member_upd_same.
  - now rewrite member_upd_other.
Qed.

(** One turn of the inner loop on a well-shaped map: the slot of [lang] and
    [field] is filled, every other slot is left alone. *)
Lemma fill_entry_spec field lang l :
  entries_shaped l ->
  exists l',
    fill_entry field lang (VObj l) = Ok (VObj l')
    /\ entries_shaped l'
    /\ entry (VObj l') lang field = Some (shown (entry (VObj l) lang field))
    /\ (forall lang' field', lang' <> lang \/ field' <> field ->
        entry (VObj l') lang' field' = entry (VObj l) lang' field')
    /\ (forall k, is_obj (member (VObj l) k) = true ->
        is_obj (member (VObj l') k) = true).
Proof.
  intros Hs. unfold fill_entry. cbn [get_member bind].
  assert (Hcur : exists m,
             or_else (member (VObj l) lang) (VObj []) = VObj m
             /\ forall f, lookup f m = entry (VObj l) lang f).
  { destruct (shaped_cases _ (entries_shaped_member lang l Hs)) as [Hf|[m Hm]].
    - exists []. unfold or_else. rewrite Hf. split; [reflexivity|].
      intros f. unfold entry. simpl in Hf |- *.
      destruct (lookup lang l) as [[]|]; try reflexivity. discriminate.
    - exists m. rewrite Hm. split; [reflexivity|].
      intros f. unfold entry. simpl in Hm.
      destruct (lookup lang l) as [x|]; [now subst x|discriminate]. }
  destruct Hcur as [m [Hm Hlook]]. rewrite Hm.
  cbn [set_member bind get_member]. rewrite member_upd_same.
  cbn [set_member bind get_member].
  eexists. split; [reflexivity|]. split; [|split; [|split]].
  - apply entries_shaped_upd; [reflexivity|].
    apply entries_shaped_upd; [reflexivity|assumption].
  - rewrite entry_upd_same, lookup_upd_same. f_equal.
    rewrite <- Hlook. simpl. now destruct (lookup field m).
  - intros lang' field' [Hne|Hne].
    + now rewrite !entry_upd_other.
    + destruct (String.eqb_spec lang' lang) as [->|Hl].
      * rewrite entry_upd_same, lookup_upd_other by assumption. apply Hlook.
      * now rewrite !entry_upd_other.
  - intros k Hk. apply is_obj_member_upd; [reflexivity|].
    now apply is_obj_member_upd.
Qed.

(** The inner loop over the configured languages, for one field. *)
Lemma fill_languages_spec field langs l :
  entries_shaped l ->
  exists l',
    forEach (fill_entry field) langs (VObj l) = Ok (VObj l')
    /\ entries_shaped l'
    /\ (forall lang, In lang langs ->
        entry (VObj l') lang field = Some (shown (entry (VObj l) lang field)))
    /\ (forall lang field', ~ In lang langs \/ field' <> field ->
        entry (VObj l') lang field' = entry (VObj l) lang field')
    /\ (forall k, is_obj (member (VObj l) k) = true ->
        is_obj (member (VObj l') k) = true).
Proof.
  revert l. induction langs as [|lang t IH]; intros l Hs.
  - exists l. simpl. repeat split; auto. intros lang [].
  - destruct (fill_entry_spec field lang l Hs) as [l1 [E1 [S1 [A1 [F1 O1]]]]].
    destruct (IH l1 S1) as [l2 [E2 [S2 [A2 [F2 O2]]]]].
    exists l2. cbn [forEach]. rewrite E1. cbn [bind]. split; [exact E2|].
    split; [exact S2|]. split; [|split].
    + intros lang' Hin.
      destruct (in_dec string_dec lang' t) as [Ht|Ht].
      * rewrite (A2 lang' Ht).
        destruct (String.eqb_spec lang' lang) as [->|Hne].
        -- rewrite A1. now rewrite shown_idem.
        -- rewrite F1 by auto. reflexivity.
      * destruct Hin as [->|Hin]; [|contradiction].
        rewrite F2 by auto. exact A1.
    + intros lang' field' Hout.
      rewrite F2 by (outside Hout; tauto).
      apply F1. outside Hout; [intros ->; tauto|assumption].
    + auto.
Qed.

Section AggregateView.

Variable options : Options.
Variable self : document.
Variable aliased : bool.
Hypothesis self_reads : has_getValue self || has___getValue self = true.

Lemma sync_caps v :
  has_getValue (sync aliased self v) || has___getValue (sync aliased self v)
  = true.
Proof.
  unfold sync, alias_i18n. rewrite self_reads. now destruct aliased.
Qed.

(** While the map is being filled, a base path still reads what the document
    stores for it. *)
Lemma getPathValue_sync v path :
  base_path path = true ->
  getPathValue (sync aliased self v) path = Ok (getValue self path).
Proof.
  intros Hb. rewrite getPathValue_document by apply sync_caps.
  f_equal. unfold sync, alias_i18n. rewrite self_reads.
  destruct aliased; [|reflexivity].
  exact (store_get_set_i18n path v (_doc self) Hb).
Qed.

(** One turn of the outer loop. *)
Lemma fill_field_spec field l :
  base_path field = true ->
  entries_shaped l ->
  is_obj (member (VObj l) (defaultLanguage options)) = true ->
  exists l',
    fill_field options aliased self field (VObj l) = Ok (VObj l')
    /\ entries_shaped l'
    /\ entry (VObj l') (defaultLanguage options) field
       = Some (getValue self field)
    /\ (forall lang, In lang (languages options) ->
        lang <> defaultLanguage options ->
        entry (VObj l') lang field = Some (shown (entry (VObj l) lang field)))
    /\ (forall lang field',
        field' <> field
        \/ (~ In lang (languages options) /\ lang <> defaultLanguage options) ->
        entry (VObj l') lang field' = entry (VObj l) lang field')
    /\ (forall k, is_obj (member (VObj l) k) = true ->
        is_obj (member (VObj l') k) = true).
Proof.
  intros Hb Hs Hd. unfold fill_field.
  destruct (fill_languages_spec field (languages options) l Hs)
    as [l1 [E1 [S1 [A1 [F1 O1]]]]].
  rewrite E1. cbn [bind]. rewrite getPathValue_sync by assumption.
  cbn [bind get_member].
  pose proof (O1 _ Hd) as Hd1.
  destruct (member (VObj l1) (defaultLanguage options)) as [| | | | |md] eqn:Em;
    try discriminate.
  cbn [set_member bind].
  assert (Hmd : forall f, lookup f md
                          = entry (VObj l1) (defaultLanguage options) f).
  { intros f. unfold entry. simpl in Em.
    destruct (lookup (defaultLanguage options) l1) as [x|];
      [now subst x|discriminate]. }
  eexists. split; [reflexivity|]. split; [|split; [|split; [|split]]].
  - apply entries_shaped_upd; [reflexivity|assumption].
  - now rewrite entry_upd_same, lookup_upd_same.
  - intros lang Hin Hne. rewrite entry_upd_other by assumption. now apply A1.
  - intros lang field' Hout.
    destruct (String.eqb_spec lang (defaultLanguage options)) as [->|Hne].
    + destruct Hout as [Hf|[_ Hc]]; [|contradiction].
      rewrite entry_upd_same, lookup_upd_other by assumption.
      rewrite Hmd. apply F1. now right.
    + rewrite entry_upd_other by assumption. apply F1. tauto.
  - intros k Hk. apply is_obj_member_upd; [reflexivity|]. now apply O1.
Qed.

(** The outer loop over the marked fields. *)
Lemma fill_fields_spec fields l :
  forallb base_path fields = true ->
  entries_shaped l ->
  is_obj (member (VObj l) (defaultLanguage options)) = true ->
  exists l',
    forEach (fill_field options aliased self) fields (VObj l) = Ok (VObj l')
    /\ entries_shaped l'
    /\ is_obj (member (VObj l') (defaultLanguage options)) = true
    /\ (forall field, In field fields ->
        entry (VObj l') (defaultLanguage options) field
        = Some (getValue self field))
    /\ (forall lang field, In lang (languages options) -> In field fields ->
        lang <> defaultLanguage options ->
        entry (VObj l') lang field = Some (shown (entry (VObj l) lang field)))
    /\ (forall lang field,
        ~ In field fields
        \/ (~ In lang (languages options) /\ lang <> defaultLanguage options) ->
        entry (VObj l') lang field = entry (VObj l) lang field).
Proof.
  revert l. induction fields as [|f t IH]; intros l Hb Hs Hd.
  - exists l. cbn [forEach]. repeat split; auto; intros; contradiction.
  - cbn [forallb] in Hb. apply andb_true_iff in Hb as [Hbf Hbt].
    destruct (fill_field_spec f l Hbf Hs Hd)
      as [l1 [E1 [S1 [D1 [A1 [F1 O1]]]]]].
    destruct (IH l1 Hbt S1 (O1 _ Hd)) as [l2 [E2 [S2 [O2 [D2 [A2 F2]]]]]].
    exists l2. cbn [forEach]. rewrite E1. cbn [bind].
    split; [exact E2|]. split; [exact S2|]. split; [exact O2|].
    split; [|split].
    + intros field Hin.
      destruct (in_dec string_dec field t) as [Ht|Ht]; [now apply D2|].
      destruct Hin as [->|Hin]; [|contradiction].
      rewrite F2 by auto. exact D1.
    + intros lang field Hl Hin Hne.
      destruct (in_dec string_dec field t) as [Ht|Ht].
      * rewrite (A2 lang field Hl Ht Hne).
        destruct (String.eqb_spec field f) as [->|Hf].
        -- rewrite (A1 lang Hl Hne). now rewrite shown_idem.
        -- rewrite F1 by auto. reflexivity.
      * destruct Hin as [->|Hin]; [|contradiction].
        rewrite F2 by auto. now apply A1.
    + intros lang field Hout.
      rewrite F2 by (outside Hout; tauto).
      apply F1. outside Hout; [intros ->; tauto|assumption].
Qed.

End AggregateView.

Lemma overlay_sync this v :
  has_getValue this || has___getValue this = true ->
  overlay (sync true this v) = v.
Proof.
  intros Hg. unfold sync, alias_i18n. rewrite Hg.
  exact (store_get_set ["_i18n"] v _).
Qed.

(** The getter of the aggregate view on a document whose overlay has the
    shape of the data model. *)
Lemma virtual_i18n_get_spec options fields this :
  has_getValue this || has___getValue this = true ->
  overlay_shaped (overlay this) = true ->
  forallb base_path fields = true ->
  exists l,
    virtual_i18n_get options fields this
    = Ok (VObj l, sync (truthy (overlay this)) this (VObj l))
    /\ is_obj (member (VObj l) (defaultLanguage options)) = true
    /\ (forall field, In field fields ->
        entry (VObj l) (defaultLanguage options) field
        = Some (getValue this field))
    /\ (forall field, ~ In field fields ->
        entry (VObj l) (defaultLanguage options) field = None)
    /\ (forall lang field, In lang (languages options) -> In field fields ->
        lang <> defaultLanguage options ->
        entry (VObj l) lang field
        = Some (shown (entry (overlay this) lang field))).
Proof.
  intros Hg Hs Hb. unfold virtual_i18n_get.
  rewrite getPathValue_document by assumption. cbn [bind].
  fold (overlay this).
  assert (H0 : exists l0,
             or_else (overlay this) (VObj []) = VObj l0
             /\ entries_shaped l0
             /\ forall lang field,
                 entry (VObj l0) lang field = entry (overlay this) lang field).
  { destruct (overlay_shaped_cases _ Hs) as [Hf|[l0 E]].
    - exists []. unfold or_else. rewrite Hf. repeat split.
      intros lang field. destruct (overlay this); try reflexivity.
      discriminate.
    - exists l0. rewrite E in *. repeat split. exact Hs. }
  destruct H0 as [l0 [E0 [S0 Hsame]]]. rewrite E0. cbn [set_member bind].
  destruct (fill_fields_spec options this (truthy (overlay this)) Hg fields
              (upd (defaultLanguage options) (VObj []) l0) Hb)
    as [l [E [S [O [D [A F]]]]]].
  { apply entries_shaped_upd; [reflexivity|assumption]. }
  { now rewrite member_upd_same. }
  exists l. rewrite E. cbn [bind]. split; [reflexivity|].
  split; [exact O|]. split; [exact D|]. split.
  - intros field Hout. rewrite F by auto. now rewrite entry_upd_same.
  - intros lang field Hl Hf Hne. rewrite (A lang field Hl Hf Hne).
    rewrite entry_upd_other by assumption. now rewrite Hsame.
Qed.

(** C5: the getter of the aggregate view answers with a map that has every
    pair of a configured language and a marked field.  A pair of a
    non-default language shows the overlay's entry, or [null] when the
    overlay has none; the sub-map of the default language has the marked
    fields as its keys and their base values as its values. *)
Theorem C5_aggregate_view_complete (options : Options)
    (fields : list string) (this : document) :
  is_document this = true ->
  overlay_shaped (overlay this) = true ->
  forallb base_path fields = true ->
  exists v this',
    virtual_i18n_get options fields this = Ok (v, this')
    /\ (forall lang field, In lang (languages options) -> In field fields ->
        has_entry v lang field = true)
    /\ (forall lang field, In lang (languages options) -> In field fields ->
        lang <> defaultLanguage options ->
        entry v lang field = Some (shown (entry (overlay this) lang field))
        /\ (entry (overlay this) lang field = None ->
            entry v lang field = Some VNull))
    /\ (forall field, In field fields ->
        entry v (defaultLanguage options) field = Some (getValue this field))
    /\ (forall field, ~ In field fields ->
        entry v (defaultLanguage options) field = None).
Proof.
  intros Hd Hs Hb. apply is_document_caps in Hd as [Hg _].
  destruct (virtual_i18n_get_spec options fields this Hg Hs Hb)
    as [l [E [O [D [N A]]]]].
  exists (VObj l). eexists. split; [exact E|].
  split; [|split; [|split; assumption]].
  - intros lang field Hl Hf. unfold has_entry.
    destruct (String.eqb_spec lang (defaultLanguage options)) as [->|Hne].
    + now rewrite D.
    + now rewrite A.
  - intros lang field Hl Hf Hne. split; [now apply A|].
    intros Hnone. rewrite A by assumption. now rewrite Hnone.
Qed.

Lemma C5_aggregate_view_complete_witness :
  exists v this',
    virtual_i18n_get Sample.options ["title"] Sample.doc_fr = Ok (v, this')
    /\ (forall lang field, In lang (languages Sample.options) ->
        In field ["title"] -> has_entry v lang field = true)
    /\ (forall lang field, In lang (languages Sample.options) ->
        In field ["title"] -> lang <> defaultLanguage Sample.options ->
        entry v lang field
        = Some (shown (entry (overlay Sample.doc_fr) lang field))
        /\ (entry (overlay Sample.doc_fr) lang field = None ->
            entry v lang field = Some VNull))
    /\ (forall field, In field ["title"] ->
        entry v (defaultLanguage Sample.options) field
        = Some (getValue Sample.doc_fr field))
    /\ (forall field, ~ In field ["title"] ->
        entry v (defaultLanguage Sample.options) field = None).
Proof.
  apply (C5_aggregate_view_complete Sample.options ["title"] Sample.doc_fr).
  - reflexivity.
  - reflexivity.
  - reflexivity.
Defined.

Lemma has_entry_is_obj v lang field :
  has_entry v lang field = true -> is_obj (member v lang) = true.
Proof.
  unfold has_entry, entry. destruct v as [| | | | |l]; try discriminate.
  simpl. destruct (lookup lang l) as [[]|]; try discriminate. reflexivity.
Qed.

(** C9, as stated, fails for a document that stores no overlay yet: the
    getter fills a fresh map, and the document is after the read what it was
    before, without any overlay. *)
Lemma C9_read_without_stored_overlay :
  overlay Sample.doc = VUndef
  /\ exists v,
       virtual_i18n_get Sample.options ["title"] Sample.doc
       = Ok (v, Sample.doc)
       /\ has_entry v "fr" "title" = true
       /\ has_entry (overlay Sample.doc) "fr" "title" = false.
Proof. split; [reflexivity|]. eexists. repeat split. Qed.

(** C9 (amended): when the document stores an overlay, the getter of the
    aggregate view fills that stored object in place: after the read the
    stored overlay is the map the getter answered with.  It has a sub-map
    keyed by the default language and a key for every marked field under
    every configured language ([null] where a non-default language had no
    entry before the read), hence, when a field is marked at all, an entry
    for every configured language.  When the document stores no overlay, the
    read leaves the document as it was. *)
Theorem C9_aggregate_read_fills_stored_overlay (options : Options)
    (fields : list string) (this : document) :
  is_document this = true ->
  overlay_shaped (overlay this) = true ->
  forallb base_path fields = true ->
  exists v this',
    virtual_i18n_get options fields this = Ok (v, this')
    /\ (truthy (overlay this) = true ->
        overlay this' = v
        /\ is_obj (member (overlay this') (defaultLanguage options)) = true
        /\ (forall lang field,
            In lang (languages options) -> In field fields ->
            has_entry (overlay this') lang field = true)
        /\ (forall lang field,
            In lang (languages options) -> In field fields ->
            lang <> defaultLanguage options ->
            entry (overlay this) lang field = None ->
            entry (overlay this') lang field = Some VNull)
        /\ (fields <> [] -> forall lang, In lang (languages options) ->
            is_obj (member (overlay this') lang) = true))
    /\ (truthy (overlay this) = false -> this' = this).
Proof.
  intros Hd Hs Hb. pose proof Hd as Hd'.
  apply is_document_caps in Hd' as [Hg _].
  destruct (virtual_i18n_get_spec options fields this Hg Hs Hb)
    as [l [E [O [D [N A]]]]].
  exists (VObj l). eexists. split; [exact E|]. split.
  - intros Ht. rewrite Ht. rewrite overlay_sync by assumption.
    assert (Hall : forall lang field,
               In lang (languages options) -> In field fields ->
               has_entry (VObj l) lang field = true).
    { intros lang field Hl Hf. unfold has_entry.
      destruct (String.eqb_spec lang (defaultLanguage options)) as [->|Hne].
      - now rewrite D.
      - now rewrite A. }
    split; [reflexivity|]. split; [exact O|]. split; [exact Hall|]. split.
    + intros lang field Hl Hf Hne Hnone.
      rewrite A by assumption. now rewrite Hnone.
    + intros Hne lang Hl. destruct fields as [|f t]; [congruence|].
      apply (has_entry_is_obj _ lang f). apply Hall; [assumption|now left].
  - intros Hf. now rewrite Hf.
Qed.

Lemma C9_aggregate_read_fills_stored_overlay_witness :
  exists v this',
    virtual_i18n_get Sample.options ["title"] Sample.doc_fr = Ok (v, this')
    /\ (truthy (overlay Sample.doc_fr) = true ->
        overlay this' = v
        /\ is_obj (member (overlay this') (defaultLanguage Sample.options))
           = true
        /\ (forall lang field,
            In lang (languages Sample.options) -> In field ["title"] ->
            has_entry (overlay this') lang field = true)
        /\ (forall lang field,
            In lang (languages Sample.options) -> In field ["title"] ->
            lang <> defaultLanguage Sample.options ->
            entry (overlay Sample.doc_fr) lang field = None ->
            entry (overlay this') lang field = Some VNull)
        /\ (["title"] <> [] -> forall lang,
            In lang (languages Sample.options) ->
            is_obj (member (overlay this') lang) = true))
    /\ (truthy (overlay Sample.doc_fr) = false -> this' = Sample.doc_fr).
Proof.
  apply (C9_aggregate_read_fills_stored_overlay Sample.options ["title"]
           Sample.doc_fr).
  - reflexivity.
  - reflexivity.
  - reflexivity.
Defined.

(** ** The overlay and the default language *)

Lemma lookup_remove k l : lookup k (remove k l) = None.
Proof.
  induction l as [|[k' x] t IH]; simpl; [reflexivity|].
  destruct (k =? k') eqn:E; [assumption|]. simpl. now rewrite E.
Qed.

Lemma write_base_keys entry ks this :
  truthy entry = true ->
  has_setValue this || has___setValue this = true ->
  exists this',
    forEach (write_base entry) ks this = Ok this'
    /\ has_setValue this' || has___setValue this' = true.
Proof.
  intros He. revert this. induction ks as [|k t IH]; intros this Hw.
  - exists this. split; [reflexivity|assumption].
  - cbn [forEach]. unfold write_base at 1.
    assert (Hg : get_member entry k = Ok (member entry k))
      by (destruct entry; try reflexivity; discriminate).
    rewrite Hg. cbn [bind]. rewrite setPathValue_document by assumption.
    cbn [bind]. apply IH. exact Hw.
Qed.

Lemma overlay_is_member d : overlay d = member (_doc d) "_i18n".
Proof. exact (store_get_one "_i18n" (_doc d)). Qed.

(** The invariant is kept by a write of a marked field, whatever language is
    active. *)
Lemma assign_field_keeps_default_out options path this v :
  is_document this = true ->
  overlay_shaped (overlay this) = true ->
  base_path path = true ->
  no_default_entry options this = true ->
  exists this',
    assign_field options path this v = Ok this'
    /\ no_default_entry options this' = true.
Proof.
  intros Hd Hs Hb Hinv. unfold assign_field.
  destruct (String.eqb_spec (getLanguage options this)
              (defaultLanguage options)) as [E|Hl].
  - unfold schemaType_set. rewrite E, String.eqb_refl, orb_true_r.
    cbn [bind]. eexists. split; [reflexivity|].
    unfold no_default_entry in *.
    change (overlay (markModified (setValue this path v) path))
      with (overlay (setValue this path v)).
    now rewrite overlay_after_base.
  - destruct (schemaType_set_spec options path this v Hd Hl Hs Hb)
      as [this1 [Hset [_ [Hk _]]]].
    rewrite Hset. cbn [bind]. eexists. split; [reflexivity|].
    unfold no_default_entry in *.
    match goal with
    | |- context [overlay (markModified (setValue this1 path ?r) path)] =>
        change (overlay (markModified (setValue this1 path r) path))
          with (overlay (setValue this1 path r))
    end.
    rewrite overlay_after_base by assumption.
    rewrite Hk by congruence. exact Hinv.
Qed.

(** The setter of the aggregate view establishes the invariant: it takes the
    entry of the default language out of the map before it stores the map as
    the overlay. *)
Lemma virtual_i18n_set_drops_default options this v :
  has_setValue this || has___setValue this = true ->
  v <> VUndef -> v <> VNull ->
  exists this',
    virtual_i18n_set options this v = Ok this'
    /\ no_default_entry options this' = true.
Proof.
  intros Hw Hu Hn. unfold virtual_i18n_set.
  assert (Hg : get_member v (defaultLanguage options)
               = Ok (member v (defaultLanguage options)))
    by (destruct v; try reflexivity; congruence).
  rewrite Hg. cbn [bind].
  destruct (truthy (member v (defaultLanguage options))) eqn:Ht.
  - destruct v as [| | | | |l]; try discriminate.
    destruct (write_base_keys (member (VObj l) (defaultLanguage options))
                (match member (VObj l) (defaultLanguage options) with
                 | VObj l0 => keys l0
                 | _ => []
                 end) this Ht Hw) as [this1 [E1 Hw1]].
    rewrite E1. cbn [bind delete_member].
    rewrite setPathValue_document by assumption. cbn [bind].
    eexists. split; [reflexivity|].
    unfold no_default_entry.
    replace (overlay _) with (VObj (remove (defaultLanguage options) l))
      by (symmetry; exact (store_get_set ["_i18n"] _ _)).
    simpl. now rewrite lookup_remove.
  - cbn [bind]. rewrite setPathValue_document by assumption. cbn [bind].
    eexists. split; [reflexivity|].
    unfold no_default_entry.
    replace (overlay _) with v
      by (symmetry; exact (store_get_set ["_i18n"] _ _)).
    now rewrite Ht.
Qed.

(** The getter of the aggregate view does the opposite to any document that
    stores an overlay: after the read the stored overlay has an entry keyed
    by the default language. *)
Lemma virtual_i18n_get_stores_default options fields this :
  has_getValue this || has___getValue this = true ->
  overlay_shaped (overlay this) = true ->
  forallb base_path fields = true ->
  truthy (overlay this) = true ->
  exists v this',
    virtual_i18n_get options fields this = Ok (v, this')
    /\ no_default_entry options this' = false.
Proof.
  intros Hg Hs Hb Ht.
  destruct (virtual_i18n_get_spec options fields this Hg Hs Hb)
    as [l [E [O _]]].
  exists (VObj l). eexists. split; [exact E|].
  unfold no_default_entry. rewrite Ht, overlay_sync by assumption.
  destruct (member (VObj l) (defaultLanguage options)); try discriminate.
  reflexivity.
Qed.

(** C4: the document stores a French title and, as the invariant asks, no
    entry keyed by the default language "en".  One read of the aggregate
    view later, the stored overlay has the entry "en" with the base title in
    it: the getter filled the stored object itself. *)
Theorem C4_aggregate_read_breaks_invariant :
  no_default_entry Sample.options Sample.doc_fr = true
  /\ exists v this',
       virtual_i18n_get Sample.options ["title"] Sample.doc_fr = Ok (v, this')
       /\ no_default_entry Sample.options this' = false
       /\ entry (overlay this') "en" "title" = Some (VStr "Hello").
Proof. split; [reflexivity|]. eexists. eexists. repeat split. Qed.

(** ** More on language selection *)

Lemma includes_In l ls : In l ls -> includes ls (VStr l) = true.
Proof.
  intros H. simpl. apply existsb_exists. exists l.
  split; [assumption|apply String.eqb_refl].
Qed.

Lemma accepted l ls :
  l <> "" -> In l ls -> truthy (VStr l) && includes ls (VStr l) = true.
Proof.
  intros Hne Hin. rewrite includes_In by assumption.
  simpl. apply String.eqb_neq in Hne. now rewrite Hne.
Qed.

(** X1: once the instance-level setter was given a configured language,
    the document resolves to it, whatever the schema-wide language and the
    former override were. *)
Theorem setLanguage_then_getLanguage (options : Options) (this : document)
    (l : string) :
  l <> "" -> In l (languages options) ->
  getLanguage options (setLanguage options this (VStr l)) = l.
Proof.
  intros Hne Hin. unfold setLanguage, getLanguages.
  rewrite accepted by assumption.
  unfold getLanguage. simpl. apply String.eqb_neq in Hne. now rewrite Hne.
Qed.

Lemma setLanguage_then_getLanguage_witness :
  getLanguage Sample.options
    (setLanguage Sample.options Sample.doc_fr (VStr "fr")) = "fr".
Proof.
  apply (setLanguage_then_getLanguage Sample.options Sample.doc_fr "fr").
  - discriminate.
  - simpl. auto.
Defined.

(** X2: the instance-level override is transient state of its own.  The
    setter, with any argument, leaves the stored data, the change marks and
    the host primitives of the document as they were; after
    [unsetLanguage] the document resolves as if no override had ever been
    set, and a document that had none is back to what it was. *)
Theorem language_override_is_transient (options : Options) (this : document)
    (lang : value) :
  let d := setLanguage options this lang in
  _doc d = _doc this
  /\ own d = own this
  /\ modifiedPaths d = modifiedPaths this
  /\ isNew d = isNew this
  /\ is_document d = is_document this
  /\ getLanguage options (unsetLanguage d)
     = (if set_str (language options)
        then match language options with Some l => l | None => "" end
        else defaultLanguage options)
  /\ (docLanguage this = None -> unsetLanguage d = this).
Proof.
  unfold setLanguage.
  destruct (truthy lang && includes (getLanguages options) lang);
    [destruct lang|]; simpl; repeat split; try reflexivity;
    intros H; destruct this; simpl in *; now subst.
Qed.

Lemma nth_error_assign_same r f h :
  nth_error (Static.assign r f h) r = option_map f (nth_error h r).
Proof.
  revert r. induction h as [|o t IH]; intros [|r]; simpl; auto.
Qed.

Lemma getLanguages_assign r r' f h :
  (forall o, languages (f o) = languages o) ->
  Static.getLanguages r (Static.assign r' f h) = Static.getLanguages r h.
Proof.
  intros Hf. unfold Static.getLanguages.
  destruct (Nat.eq_dec r r') as [->|Hne].
  - rewrite nth_error_assign_same. destruct (nth_error h r'); simpl; auto.
  - now rewrite assign_other.
Qed.

(** The two schema-level setters in closed form: one assignment to the
    caller's options object, or nothing. *)
Lemma setDefaultLanguage_closed r schema lang h :
  Static.setDefaultLanguage r schema lang h
  = match lang with
    | VStr l =>
        if truthy lang && includes (Static.getLanguages r h) lang
        then Static.assign r (fun o => with_defaultLanguage o l) h
        else h
    | _ => h
    end.
Proof.
  unfold Static.setDefaultLanguage.
  destruct (truthy lang && includes (Static.getLanguages r h) lang);
    destruct lang; try reflexivity.
  apply updateDefaultLanguage_assign.
Qed.

Lemma setLanguage_closed r schema lang h :
  Static.setLanguage r schema lang h
  = match lang with
    | VStr l =>
        if truthy lang && includes (Static.getLanguages r h) lang
        then Static.assign r (fun o => with_language o l) h
        else h
    | _ => h
    end.
Proof.
  unfold Static.setLanguage.
  destruct (truthy lang && includes (Static.getLanguages r h) lang);
    destruct lang; try reflexivity.
  apply updateLanguage_assign.
Qed.

(** X3: the schema-level default-language setter, given a configured
    language, makes [getDefaultLanguage] answer that language; it leaves the
    configured languages and the schema-wide active language alone, and its
    effect does not depend on the schema graph it walks. *)
Theorem static_setDefaultLanguage_valid (r : nat) (schema : Static.Schema)
    (l : string) (h : Static.heap) (o : Options) :
  nth_error h r = Some o ->
  l <> "" -> In l (languages o) ->
  let h' := Static.setDefaultLanguage r schema (VStr l) h in
  Static.getDefaultLanguage r h' = Some l
  /\ Static.getLanguages r h' = languages o
  /\ nth_error h' r = Some (mkOptions l (languages o) (language o))
  /\ (forall schema',
      Static.setDefaultLanguage r schema' (VStr l) h = h').
Proof.
  intros Hr Hne Hin h'.
  assert (E : forall s, Static.setDefaultLanguage r s (VStr l) h
                        = Static.assign r (fun o => with_defaultLanguage o l) h).
  { intros s. rewrite setDefaultLanguage_closed.
    unfold Static.getLanguages. rewrite Hr. now rewrite accepted. }
  unfold h'. rewrite E.
  unfold Static.getDefaultLanguage, Static.getLanguages.
  rewrite nth_error_assign_same, Hr. simpl. repeat split. apply E.
Qed.

Lemma static_setDefaultLanguage_valid_witness :
  let h' := Static.setDefaultLanguage 0 Sample.parent (VStr "de")
              Sample.heap in
  Static.getDefaultLanguage 0 h' = Some "de"
  /\ Static.getLanguages 0 h' = languages Sample.options
  /\ nth_error h' 0
     = Some (mkOptions "de" (languages Sample.options)
               (language Sample.options))
  /\ (forall schema',
      Static.setDefaultLanguage 0 schema' (VStr "de") Sample.heap = h').
Proof.
  apply (static_setDefaultLanguage_valid 0 Sample.parent "de" Sample.heap
           Sample.options).
  - reflexivity.
  - discriminate.
  - simpl. auto.
Defined.

Lemma assign_comm r1 r2 (f g : Options -> Options) h :
  (forall o, f (g o) = g (f o)) ->
  Static.assign r1 f (Static.assign r2 g h)
  = Static.assign r2 g (Static.assign r1 f h).
Proof.
  intros Hc. revert r1 r2.
  induction h as [|o t IH]; intros [|r1] [|r2]; simpl;
    rewrite ?Hc, ?IH; reflexivity.
Qed.

(** X4: the two schema-level setters commute, for any arguments, valid or
    not, and for any two callers: neither changes the configured languages
    the other validates against. *)
Theorem static_setters_commute (r1 r2 : nat) (s1 s2 : Static.Schema)
    (a b : value) (h : Static.heap) :
  Static.setLanguage r1 s1 a (Static.setDefaultLanguage r2 s2 b h)
  = Static.setDefaultLanguage r2 s2 b (Static.setLanguage r1 s1 a h).
Proof.
  rewrite !setLanguage_closed, !setDefaultLanguage_closed.
  destruct a as [| | | |la|], b as [| | | |lb|]; try reflexivity;
    try (destruct (_ && _); reflexivity).
  destruct (truthy (VStr lb) && includes (Static.getLanguages r2 h) (VStr lb))
    eqn:Eb;
    destruct (truthy (VStr la) && includes (Static.getLanguages r1 h) (VStr la))
      eqn:Ea;
    rewrite ?getLanguages_assign by reflexivity; rewrite ?Ea, ?Eb;
    try reflexivity.
  now apply assign_comm.
Qed.

(** X5: the precedence of the three sources of the active language.  After
    the schema-level active-language setter was given a configured language
    [l], a document without an override resolves to [l] rather than to the
    default language, and a document with an override keeps resolving to its
    override. *)
Theorem schema_language_and_override (r : nat) (schema : Static.Schema)
    (l : string) (h : Static.heap) (o : Options) (this : document) :
  nth_error h r = Some o ->
  l <> "" -> In l (languages o) ->
  exists o',
    nth_error (Static.setLanguage r schema (VStr l) h) r = Some o'
    /\ defaultLanguage o' = defaultLanguage o
    /\ (set_str (docLanguage this) = false -> getLanguage o' this = l)
    /\ (forall m, m <> "" -> docLanguage this = Some m ->
        getLanguage o' this = m).
Proof.
  intros Hr Hne Hin. rewrite setLanguage_closed.
  unfold Static.getLanguages. rewrite Hr, accepted by assumption.
  rewrite nth_error_assign_same, Hr. simpl.
  eexists. split; [reflexivity|]. split; [reflexivity|].
  apply String.eqb_neq in Hne. split.
  - intros Hd. unfold getLanguage. rewrite Hd. simpl. now rewrite Hne.
  - intros m Hm Hd. unfold getLanguage. rewrite Hd. simpl.
    apply String.eqb_neq in Hm. now rewrite Hm.
Qed.

Lemma schema_language_and_override_witness :
  exists o',
    nth_error (Static.setLanguage 0 Sample.parent (VStr "fr") Sample.heap) 0
    = Some o'
    /\ defaultLanguage o' = defaultLanguage Sample.options
    /\ (set_str (docLanguage Sample.doc_en) = false ->
        getLanguage o' Sample.doc_en = "fr")
    /\ (forall m, m <> "" -> docLanguage Sample.doc_en = Some m ->
        getLanguage o' Sample.doc_en = m).
Proof.
  apply (schema_language_and_override 0 Sample.parent "fr" Sample.heap
           Sample.options Sample.doc_en).
  - reflexivity.
  - discriminate.
  - simpl. auto.
Defined.

(** ** The connection-wide setters *)

Lemma with_defaultLanguage_idem o l :
  with_defaultLanguage (with_defaultLanguage o l) l = with_defaultLanguage o l.
Proof. reflexivity. Qed.

Lemma connection_setDefaultLanguage_nth ms l h r o :
  nth_error h r = Some o ->
  nth_error (Connection.setDefaultLanguage ms (VStr l) h) r
  = Some (if Connection.registered r ms
             && (truthy (VStr l) && includes (languages o) (VStr l))
          then with_defaultLanguage o l else o).
Proof.
  revert h o. induction ms as [|[name m] rest IH]; intros h o Hr.
  - simpl. exact Hr.
  - cbn [Connection.setDefaultLanguage Connection.registered existsb snd].
    destruct (Connection.statics m) as [r'|]; [|now apply IH].
    rewrite setDefaultLanguage_closed.
    destruct (Nat.eqb_spec r r') as [<-|Hne].
    + unfold Static.getLanguages at 1. rewrite Hr.
      destruct (truthy (VStr l) && includes (languages o) (VStr l)) eqn:Ev.
      * rewrite (IH _ (with_defaultLanguage o l))
          by (rewrite nth_error_assign_same, Hr; reflexivity).
        cbn [languages with_defaultLanguage]. rewrite Ev.
        rewrite andb_true_r. cbn [orb].
        now destruct (Connection.registered r rest).
      * rewrite (IH _ o Hr), Ev, !andb_false_r. reflexivity.
    + cbn [orb].
      destruct (truthy (VStr l)
                && includes (Static.getLanguages r' h) (VStr l)).
      * apply IH. now rewrite assign_other.
      * now apply IH.
Qed.

Lemma connection_setLanguage_nth ms l h r o :
  nth_error h r = Some o ->
  nth_error (Connection.setLanguage ms (VStr l) h) r
  = Some (if Connection.registered r ms
             && (truthy (VStr l) && includes (languages o) (VStr l))
          then with_language o l else o).
Proof.
  revert h o. induction ms as [|[name m] rest IH]; intros h o Hr.
  - simpl. exact Hr.
  - cbn [Connection.setLanguage Connection.registered existsb snd].
    destruct (Connection.statics m) as [r'|]; [|now apply IH].
    rewrite setLanguage_closed.
    destruct (Nat.eqb_spec r r') as [<-|Hne].
    + unfold Static.getLanguages at 1. rewrite Hr.
      destruct (truthy (VStr l) && includes (languages o) (VStr l)) eqn:Ev.
      * rewrite (IH _ (with_language o l))
          by (rewrite nth_error_assign_same, Hr; reflexivity).
        cbn [languages with_language]. rewrite Ev.
        rewrite andb_true_r. cbn [orb].
        now destruct (Connection.registered r rest).
      * rewrite (IH _ o Hr), Ev, !andb_false_r. reflexivity.
    + cbn [orb].
      destruct (truthy (VStr l)
                && includes (Static.getLanguages r' h) (VStr l)).
      * apply IH. now rewrite assign_other.
      * now apply IH.
Qed.

(** X6: the two connection-wide setters validate the code against each
    model on its own.  An options object ends up with the new default (resp.
    active) language exactly when a model of the connection carries it and
    the code is among its configured languages; every other options object
    is left as it was, so one call can update some models of the connection
    and skip others. *)
Theorem connection_setters_each (ms : Connection.models)
    (l : string) (h : Static.heap) (r : nat) (o : Options) :
  nth_error h r = Some o ->
  let valid := Connection.registered r ms
               && (truthy (VStr l) && includes (languages o) (VStr l)) in
  nth_error (Connection.setDefaultLanguage ms (VStr l) h) r
  = Some (if valid then with_defaultLanguage o l else o)
  /\ nth_error (Connection.setLanguage ms (VStr l) h) r
     = Some (if valid then with_language o l else o).
Proof.
  intros Hr valid. split.
  - now apply connection_setDefaultLanguage_nth.
  - now apply connection_setLanguage_nth.
Qed.

Lemma connection_setters_each_witness :
  (nth_error
     (Connection.setDefaultLanguage Sample.models (VStr "de") Sample.heap2) 0
   = Some (mkOptions "de" ["en"; "fr"; "de"] None)
   /\ nth_error
        (Connection.setLanguage Sample.models (VStr "de") Sample.heap2) 0
      = Some (mkOptions "en" ["en"; "fr"; "de"] (Some "de")))
  /\ (nth_error
        (Connection.setDefaultLanguage Sample.models (VStr "de") Sample.heap2)
        1
      = Some Sample.options_en_fr
      /\ nth_error
           (Connection.setLanguage Sample.models (VStr "de") Sample.heap2) 1
         = Some Sample.options_en_fr).
Proof.
  split.
  - apply (connection_setters_each Sample.models "de" Sample.heap2 0
             Sample.options).
    reflexivity.
  - apply (connection_setters_each Sample.models "de" Sample.heap2 1
             Sample.options_en_fr).
    reflexivity.
Defined.

Lemma has_In db l : Connection.has db l = true <-> In db l.
Proof.
  unfold Connection.has. rewrite existsb_exists. split.
  - intros [x [Hin E]]. apply Nat.eqb_eq in E. now subst.
  - intros Hin. exists db. split; [assumption|apply Nat.eqb_refl].
Qed.

Lemma init_keeps_registry_ok db g dbs :
  registry_ok g dbs -> registry_ok (Connection.init db g) (dbs ++ [db]).
Proof.
  intros [Hsame [Hnd [Hin [Ha1 Ha2]]]]. unfold Connection.init.
  destruct (Connection.has db (Connection.db_setDefaultLanguage g)) eqn:E.
  - repeat split; try assumption.
    + intros H. apply in_or_app. left. now apply Hin.
    + intros H. apply in_app_or in H as [H|[<-|[]]]; [now apply Hin|exact E].
  - assert (Hnot : ~ In db (Connection.db_setDefaultLanguage g)).
    { intros H. apply has_In in H. congruence. }
    unfold registry_ok. cbn [Connection.db_setLanguage
      Connection.db_setDefaultLanguage Connection.mongoose_setDefaultLanguage
      Connection.mongoose_setLanguage].
    split; [now rewrite Hsame|]. split; [now constructor|]. split; [|split].
    + intros d. rewrite has_In. cbn [In]. rewrite in_app_iff. cbn [In].
      rewrite <- Hin, has_In. tauto.
    + rewrite Ha1. cbn [Connection.has existsb].
      fold (Connection.has 0 (Connection.db_setDefaultLanguage g)).
      destruct (Connection.has 0 (Connection.db_setDefaultLanguage g));
        [now rewrite orb_true_r|reflexivity].
    + rewrite Ha2. cbn [Connection.has existsb].
      fold (Connection.has 0 (Connection.db_setLanguage g)).
      destruct (Connection.has 0 (Connection.db_setLanguage g));
        [now rewrite orb_true_r|reflexivity].
Qed.

Lemma fold_init_registry_ok dbs g pre :
  registry_ok g pre ->
  registry_ok (fold_left (fun g db => Connection.init db g) dbs g)
    (pre ++ dbs).
Proof.
  revert g pre. induction dbs as [|db t IH]; intros g pre H; simpl.
  - now rewrite app_nil_r.
  - replace (pre ++ db :: t)%list with ((pre ++ [db]) ++ t)%list
      by (rewrite <- app_assoc; reflexivity).
    apply IH. now apply init_keeps_registry_ok.
Qed.

(** X7: whatever the order in which models of whatever connections are set
    up, the two connection-wide functions are installed together and once
    per connection, on exactly the connections that had a model set up; each
    process-wide alias exists exactly when the default connection is among
    them (a process that only uses other connections never gets it); and
    setting up a further model of a connection already seen changes
    nothing. *)
Theorem init_installs_once (dbs : list nat) :
  registry_ok (Connection.after dbs) dbs
  /\ (forall db, In db dbs ->
      Connection.init db (Connection.after dbs) = Connection.after dbs).
Proof.
  assert (H : registry_ok (Connection.after dbs) dbs).
  { apply (fold_init_registry_ok dbs Connection.start []).
    unfold registry_ok. simpl. split; [reflexivity|].
    split; [constructor|]. split; [|split; reflexivity].
    intros db. split; [discriminate|intros []]. }
  split; [exact H|].
  intros db Hin. destruct H as [_ [_ [Hiff _]]].
  unfold Connection.init. apply Hiff in Hin. now rewrite Hin.
Qed.

(** ** Installing the plugin *)

Lemma eachPath_spec langs paths acc :
  Install.eachPath langs paths acc
  = Install.mkInstalled
      (Install.i18nFields acc ++ marked paths)
      (Install.virtuals acc
       ++ flat_map (fun f => map (Install.virtual_name f) langs)
            (marked paths)).
Proof.
  revert acc. induction paths as [|[f o] rest IH]; intros acc.
  - simpl. rewrite !app_nil_r. now destruct acc.
  - cbn [Install.eachPath]. rewrite IH. unfold Install.onPath, marked.
    cbn [filter snd fst]. destruct (Install.i18n o); cbn [negb].
    + cbn [map flat_map Install.i18nFields Install.virtuals fst].
      now rewrite <- !app_assoc.
    + reflexivity.
Qed.

(** X8: the plugin transforms exactly the paths declared with the [i18n]
    option, in their order, and installs for each of them one virtual per
    configured language, plus the aggregate virtual; a path without the
    option gets no virtual. *)
Theorem install_covers (options : Options)
    (paths : list (string * Install.SchemaTypeOptions)) :
  let inst := Install.mongooseI18nExtra options paths in
  Install.i18nFields inst = marked paths
  /\ (forall f, In f (marked paths) <->
                exists o, In (f, o) paths /\ Install.i18n o = true)
  /\ (forall name, In name (Install.virtuals inst) <->
        name = "_i18n"
        \/ exists f lang,
             In f (marked paths) /\ In lang (languages options)
             /\ name = Install.virtual_name f lang)
  /\ length (Install.virtuals inst)
     = (length (marked paths) * length (languages options) + 1)%nat.
Proof.
  unfold Install.mongooseI18nExtra. rewrite eachPath_spec.
  cbn [Install.i18nFields Install.virtuals app]. split; [reflexivity|].
  split; [|split].
  - intros f. unfold marked. rewrite in_map_iff. split.
    + intros [[f' o] [E H]]. apply filter_In in H as [Hin Hm].
      simpl in E. subst f'. now exists o.
    + intros [o [Hin Hm]]. exists (f, o). split; [reflexivity|].
      apply filter_In. now split.
  - intros name. rewrite in_app_iff, in_flat_map. cbn [In]. split.
    + intros [[f [Hf Hn]]|[H|[]]]; [right|now left].
      apply in_map_iff in Hn as [lang [E Hl]]. now exists f, lang.
    + intros [->|[f [lang [Hf [Hl ->]]]]]; [right; now left|left].
      exists f. split; [assumption|]. now apply in_map.
  - rewrite length_app. cbn [length]. f_equal.
    induction (marked paths) as [|f t IH]; [reflexivity|].
    cbn [flat_map length]. now rewrite length_app, length_map, IH.
Qed.

Lemma underscore_inside a b :
  Install.no_underscore (a ++ "_" ++ b) = false.
Proof.
  induction a as [|c r IH]; simpl; [reflexivity|].
  simpl in IH. rewrite IH. apply andb_false_r.
Qed.

(** A virtual's name determines its path and its language, as long as no
    language code has an underscore. *)
Lemma virtual_name_inj p1 l1 p2 l2 :
  Install.no_underscore l1 = true -> Install.no_underscore l2 = true ->
  Install.virtual_name p1 l1 = Install.virtual_name p2 l2 ->
  p1 = p2 /\ l1 = l2.
Proof.
  unfold Install.virtual_name. intros H1 H2. revert p2.
  induction p1 as [|c r IH]; intros [|c' r'] E; simpl in E.
  - injection E as E. auto.
  - injection E as Ec E. subst l1.
    pose proof (underscore_inside r' l2) as U. simpl in U. congruence.
  - injection E as Ec E. subst l2.
    pose proof (underscore_inside r l1) as U. simpl in U. congruence.
  - injection E as Ec E. destruct (IH _ E) as [-> ->]. now subst.
Qed.

Lemma NoDup_map_in {A B} (f : A -> B) l :
  (forall x y, In x l -> In y l -> f x = f y -> x = y) ->
  NoDup l -> NoDup (map f l).
Proof.
  intros Hinj Hl. induction Hl as [|x t Hx Ht IH]; simpl; constructor.
  - intros Hin. apply in_map_iff in Hin as [y [E Hy]].
    assert (y = x) by (apply Hinj; simpl; auto). now subst.
  - apply IH. intros a b Ha Hb. apply Hinj; simpl; auto.
Qed.

(** X9: no two installed virtuals share a name, provided the declared paths
    are distinct and non-empty, the configured languages are distinct and
    no language code has an underscore. *)
Theorem install_names_distinct (options : Options)
    (paths : list (string * Install.SchemaTypeOptions)) :
  NoDup (marked paths) ->
  ~ In "" (marked paths) ->
  NoDup (languages options) ->
  forallb Install.no_underscore (languages options) = true ->
  NoDup (Install.virtuals (Install.mongooseI18nExtra options paths)).
Proof.
  intros Hp He Hl Hu. unfold Install.mongooseI18nExtra.
  rewrite eachPath_spec. cbn [Install.virtuals app].
  rewrite forallb_forall in Hu.
  apply NoDup_app.
  - induction Hp as [|f t Hf Ht IH]; [constructor|].
    cbn [flat_map]. apply NoDup_app.
    + apply NoDup_map_in; [|assumption].
      intros x y Hx Hy E. now apply (virtual_name_inj f x f y); auto.
    + apply IH. intros H. apply He. now right.
    + intros name H1 H2.
      apply in_map_iff in H1 as [l1 [E1 Hl1]].
      apply in_flat_map in H2 as [f' [Hf' H2]].
      apply in_map_iff in H2 as [l2 [E2 Hl2]].
      rewrite <- E2 in E1.
      destruct (virtual_name_inj f l1 f' l2) as [-> _]; auto.
  - repeat constructor. intros [].
  - intros name H1 [<-|[]].
    apply in_flat_map in H1 as [f [Hf H1]].
    apply in_map_iff in H1 as [l [E Hl']].
    destruct (virtual_name_inj f l "" "i18n") as [-> _]; auto.
Qed.

Lemma install_names_distinct_witness :
  NoDup
    (Install.virtuals (Install.mongooseI18nExtra Sample.options Sample.paths)).
Proof.
  apply (install_names_distinct Sample.options Sample.paths).
  - simpl. repeat constructor; simpl; intuition discriminate.
  - simpl. intuition discriminate.
  - simpl. repeat constructor; simpl; intuition discriminate.
  - reflexivity.
Defined.

(** ** How the accessors of a marked field compose *)

Lemma entry_member x lang field v :
  entry x lang field = Some v -> member (member x lang) field = v.
Proof.
  unfold entry. destruct x as [| | | | |l]; try discriminate. simpl.
  destruct (lookup lang l) as [[| | | | |m]|]; try discriminate.
  simpl. now intros ->.
Qed.

(** The assignments of the set hook, with everything they leave alone. *)
Lemma write_slot_full stored lang path v :
  overlay_shaped stored = true ->
  exists x,
    entry x lang path = Some v
    /\ is_obj x = true
    /\ (forall k, k <> lang -> member x k = member stored k)
    /\ (forall f, f <> path ->
        member (member x lang) f = member (member stored lang) f)
    /\ forall T (K : value -> res T),
        (cur <- get_member (or_else stored (VObj [])) lang ;;
         o <- set_member (or_else stored (VObj [])) lang
                (or_else cur (VObj [])) ;;
         cur <- get_member o lang ;;
         cur <- set_member cur path v ;;
         o <- set_member o lang cur ;;
         K o) = K x.
Proof.
  intros Hs.
  pose proof (overlay_shaped_member stored lang Hs) as Hm.
  assert (H0 : exists l0,
             or_else stored (VObj []) = VObj l0
             /\ forall k, member (VObj l0) k = member stored k).
  { destruct (overlay_shaped_cases stored Hs) as [Hf|[l ->]].
    - exists []. unfold or_else. rewrite Hf. split; [reflexivity|].
      intros k. destruct stored; try reflexivity. discriminate.
    - exists l. split; reflexivity. }
  destruct H0 as [l0 [E0 Hsame]]. rewrite E0.
  cbn [get_member bind]. rewrite Hsame.
  assert (H1 : exists m,
             or_else (member stored lang) (VObj []) = VObj m
             /\ forall f, member (VObj m) f = member (member stored lang) f).
  { destruct (shaped_cases _ Hm) as [Hf|[m E]].
    - exists []. unfold or_else. rewrite Hf. split; [reflexivity|].
      intros f. destruct (member stored lang); try reflexivity. discriminate.
    - exists m. rewrite E. split; reflexivity. }
  destruct H1 as [m [E1 Hsame1]]. rewrite E1.
  cbn [set_member bind get_member]. rewrite member_upd_same.
  cbn [set_member bind].
  exists (VObj (upd lang (VObj (upd path v m)) (upd lang (VObj m) l0))).
  split; [|split; [reflexivity|split; [|split; [|reflexivity]]]].
  - unfold entry. now rewrite !lookup_upd_same.
  - intros k Hk. rewrite !member_upd_other by assumption. apply Hsame.
  - intros f Hf. rewrite member_upd_same, member_upd_other by assumption.
    apply Hsame1.
Qed.

(** A write of a marked field while a non-default language is active, with
    everything it leaves alone. *)
Lemma assign_field_spec options path this v :
  is_document this = true ->
  getLanguage options this <> defaultLanguage options ->
  overlay_shaped (overlay this) = true ->
  base_path path = true ->
  exists this',
    assign_field options path this v = Ok this'
    /\ entry (overlay this') (getLanguage options this) path = Some v
    /\ (forall k, k <> getLanguage options this ->
        member (overlay this') k = member (overlay this) k)
    /\ (forall f, f <> path ->
        member (member (overlay this') (getLanguage options this)) f
        = member (member (overlay this) (getLanguage options this)) f)
    /\ getValue this' path
       = (if isNew this && negb (truthy (getValue this path)) then v
          else getValue this path)
    /\ (forall p, hd "" (split_path p) <> hd "" (split_path path) ->
        base_path p = true -> getValue this' p = getValue this p)
    /\ docLanguage this' = docLanguage this
    /\ is_document this' = true.
Proof.
  intros Hd Hl Hs Hb. pose proof Hd as Hdoc.
  apply is_document_caps in Hd as [Hg [Hw Hm]].
  apply String.eqb_neq in Hl.
  destruct (write_slot_full (overlay this) (getLanguage options this) path v
              Hs) as [x [He [_ [Hk [Hf HK]]]]].
  destruct (overlay_written (truthy (overlay this)) this x path Hg Hw Hb)
    as [Hw1 [Hg1 [Hov [Hbase Hnew]]]].
  set (this1 := markModified
                  (setValue (sync (truthy (overlay this)) this x) "_i18n" x)
                  "_i18n") in *.
  assert (Hset : schemaType_set options path this v
                 = Ok (if isNew this && negb (truthy (getValue this path))
                       then v else getValue this path, this1)).
  { unfold schemaType_set. rewrite Hm, Hl. cbn [negb orb].
    rewrite getPathValue_document by assumption. cbn [bind].
    fold (overlay this). rewrite HK.
    rewrite setPathValue_document by assumption. cbn [bind]. fold this1.
    rewrite getPathValue_document by assumption. cbn [bind].
    now rewrite Hbase, Hnew. }
  assert (Hsync : sync (truthy (overlay this)) this x = this
                  \/ sync (truthy (overlay this)) this x
                     = with_doc this (store_set ["_i18n"] x (_doc this))).
  { unfold sync, alias_i18n. rewrite Hg. destruct (truthy (overlay this)); auto. }
  unfold assign_field. rewrite Hset. cbn [bind].
  eexists. split; [reflexivity|].
  match goal with
  | |- context [markModified (setValue this1 path ?r) path] =>
      set (this2 := markModified (setValue this1 path r) path)
  end.
  assert (Hov2 : overlay this2 = x).
  { change (overlay (setValue this1 path
              (if isNew this && negb (truthy (getValue this path)) then v
               else getValue this path)) = x).
    now rewrite overlay_after_base. }
  rewrite Hov2. split; [exact He|]. split; [exact Hk|]. split; [exact Hf|].
  split; [exact (store_get_set _ _ _)|]. split; [|split].
  - intros p Hp Hbp.
    assert (E1 : getValue this2 p = getValue this1 p).
    { unfold this2, getValue, setValue, markModified, with_doc. cbn [_doc].
      destruct (split_path p) as [|a ps] eqn:Ea;
        [now apply split_path_nonempty in Ea|].
      destruct (split_path path) as [|b qs] eqn:Eb;
        [now apply split_path_nonempty in Eb|].
      simpl in Hp. now apply store_get_set_other. }
    rewrite E1.
    change (getValue (setValue (sync (truthy (overlay this)) this x)
                        "_i18n" x) p = getValue this p).
    rewrite getValue_base_after_overlay by assumption.
    destruct Hsync as [->| ->]; [reflexivity|].
    exact (store_get_set_i18n p x (_doc this) Hbp).
  - unfold this2, this1. destruct Hsync as [->| ->]; reflexivity.
  - unfold this2, this1. destruct Hsync as [->| ->]; exact Hdoc.
Qed.

Lemma getLanguage_docLanguage options a b :
  docLanguage a = docLanguage b -> getLanguage options a = getLanguage options b.
Proof. unfold getLanguage. now intros ->. Qed.

Lemma schemaType_get_translated options path fallbackLang this raw v :
  has_getLanguage this = true ->
  getLanguage options this <> defaultLanguage options ->
  Host.get this (overlay_key (getLanguage options this) path) = v ->
  truthy v = true ->
  schemaType_get options path fallbackLang this raw = v.
Proof.
  intros Hm Hl Hg Ht. unfold schemaType_get.
  apply String.eqb_neq in Hl. now rewrite Hm, Hl, Hg, Ht.
Qed.

(** X10: what was written to a marked field while a non-default language
    [L] was active is what a read of the field in [L] answers afterwards,
    through the field itself (whatever the fallback language and the base
    value) and through the virtual [path_L], for a non-empty value and a
    language code and a field name that are single steps of a path. *)
Theorem field_write_then_read (options : Options) (path : string)
    (this : document) (v : value) :
  is_document this = true ->
  getLanguage options this <> defaultLanguage options ->
  overlay_shaped (overlay this) = true ->
  base_path path = true ->
  no_dot (getLanguage options this) = true ->
  no_dot path = true ->
  truthy v = true ->
  exists this',
    assign_field options path this v = Ok this'
    /\ (forall fallbackLang raw,
        schemaType_get options path fallbackLang this' raw = v)
    /\ virtual_lang_get options path (getLanguage options this) this' = Ok v.
Proof.
  intros Hd Hl Hs Hb Hn1 Hn2 Ht.
  destruct (assign_field_spec options path this v Hd Hl Hs Hb)
    as [this' [E [He [_ [_ [_ [_ [Hdl Hd']]]]]]]].
  apply is_document_caps in Hd' as [Hg' [_ Hm']].
  assert (Hread : Host.get this' (overlay_key (getLanguage options this) path)
                  = v).
  { rewrite overlay_slot_read by assumption. now apply entry_member. }
  exists this'. split; [exact E|]. split.
  - intros fallbackLang raw.
    apply schemaType_get_translated;
      rewrite ?(getLanguage_docLanguage options this' this Hdl); assumption.
  - unfold virtual_lang_get. apply String.eqb_neq in Hl. rewrite Hl.
    rewrite getPathValue_document by assumption. f_equal. exact Hread.
Qed.

Lemma field_write_then_read_witness :
  exists this',
    assign_field Sample.options "title" Sample.doc_fr (VStr "Hallo")
    = Ok this'
    /\ (forall fallbackLang raw,
        schemaType_get Sample.options "title" fallbackLang this' raw
        = VStr "Hallo")
    /\ virtual_lang_get Sample.options "title"
         (getLanguage Sample.options Sample.doc_fr) this'
       = Ok (VStr "Hallo").
Proof.
  apply (field_write_then_read Sample.options "title" Sample.doc_fr
           (VStr "Hallo")).
  - reflexivity.
  - discriminate.
  - reflexivity.
  - reflexivity.
  - reflexivity.
  - reflexivity.
  - reflexivity.
Defined.

(** X11: a write to a marked field while a non-default language [L] is
    active changes one overlay slot.  The overlay of every other language,
    the slot of every other field under [L], every other base field and the
    document's language override are as they were. *)
Theorem field_write_touches_one_slot (options : Options) (path : string)
    (this : document) (v : value) :
  is_document this = true ->
  getLanguage options this <> defaultLanguage options ->
  overlay_shaped (overlay this) = true ->
  base_path path = true ->
  exists this',
    assign_field options path this v = Ok this'
    /\ (forall lang field,
        lang <> getLanguage options this \/ field <> path ->
        member (member (overlay this') lang) field
        = member (member (overlay this) lang) field)
    /\ (forall p, hd "" (split_path p) <> hd "" (split_path path) ->
        base_path p = true -> getValue this' p = getValue this p)
    /\ getLanguage options this' = getLanguage options this.
Proof.
  intros Hd Hl Hs Hb.
  destruct (assign_field_spec options path this v Hd Hl Hs Hb)
    as [this' [E [_ [Hk [Hf [_ [Hp [Hdl _]]]]]]]].
  exists this'. split; [exact E|]. split; [|split].
  - intros lang field Hout.
    destruct (String.eqb_spec lang (getLanguage options this)) as [->|Hne].
    + destruct Hout as [Hc|Hc]; [congruence|]. now apply Hf.
    + now rewrite Hk.
  - exact Hp.
  - now apply getLanguage_docLanguage.
Qed.

Lemma field_write_touches_one_slot_witness :
  exists this',
    assign_field Sample.options "title" Sample.doc_fr (VStr "Hallo")
    = Ok this'
    /\ (forall lang field,
        lang <> getLanguage Sample.options Sample.doc_fr \/ field <> "title" ->
        member (member (overlay this') lang) field
        = member (member (overlay Sample.doc_fr) lang) field)
    /\ (forall p, hd "" (split_path p) <> hd "" (split_path "title") ->
        base_path p = true -> getValue this' p = getValue Sample.doc_fr p)
    /\ getLanguage Sample.options this'
       = getLanguage Sample.options Sample.doc_fr.
Proof.
  apply (field_write_touches_one_slot Sample.options "title" Sample.doc_fr
           (VStr "Hallo")).
  - reflexivity.
  - discriminate.
  - reflexivity.
  - reflexivity.
Defined.

Lemma split_path_dotted path :
  no_dot path = false ->
  exists p q rest, split_path path = p :: q :: rest /\ p <> path.
Proof.
  induction path as [|c r IH]; simpl; [discriminate|].
  destruct (Ascii.eqb c ".") eqn:Ec; simpl.
  - intros _. destruct (split_path r) as [|q rest] eqn:E;
      [now apply split_path_nonempty in E|].
    exists "", q, rest. split; [reflexivity|discriminate].
  - intros H. destruct (IH H) as [p [q [rest [E Hne]]]]. rewrite E.
    exists (String c p), q, rest. split; [reflexivity|congruence].
Qed.

(** A read of the slot of [lang] and a dotted [path] walks the overlay of
    [lang] along the steps of the path. *)
Lemma overlay_walk this lang path :
  no_dot lang = true ->
  Host.get this (overlay_key lang path)
  = store_get (split_path path) (member (overlay this) lang).
Proof.
  intros Hl. unfold Host.get.
  rewrite split_overlay_key, split_path_dot by assumption.
  now rewrite !store_get_cons_one, overlay_is_member.
Qed.

(** X13: for a marked field whose path has a dot (a field of a nested
    object), a write of the field while a non-default language is active is
    filed in the overlay under the whole path as one key, where no read
    looks for it: the field read without a fallback language and the
    virtual [path_L] answer after the write what they answered before. *)
Theorem nested_path_write_not_read (options : Options) (path : string)
    (this : document) (v : value) :
  is_document this = true ->
  getLanguage options this <> defaultLanguage options ->
  overlay_shaped (overlay this) = true ->
  base_path path = true ->
  no_dot (getLanguage options this) = true ->
  no_dot path = false ->
  exists this',
    assign_field options path this v = Ok this'
    /\ entry (overlay this') (getLanguage options this) path = Some v
    /\ virtual_lang_get options path (getLanguage options this) this'
       = virtual_lang_get options path (getLanguage options this) this
    /\ (forall fallbackLang raw, set_str fallbackLang = false ->
        schemaType_get options path fallbackLang this' raw
        = schemaType_get options path fallbackLang this raw).
Proof.
  intros Hd Hl Hs Hb Hn Hdot.
  destruct (assign_field_spec options path this v Hd Hl Hs Hb)
    as [this' [E [He [_ [Hf [_ [_ [Hdl Hd']]]]]]]].
  destruct (split_path_dotted path Hdot) as [p [q [rest [Esp Hne]]]].
  assert (Hread : Host.get this' (overlay_key (getLanguage options this) path)
                  = Host.get this
                      (overlay_key (getLanguage options this) path)).
  { rewrite !overlay_walk by assumption.
    rewrite Esp, !(store_get_cons_one p). now rewrite Hf. }
  apply is_document_caps in Hd as [Hg [_ Hm]].
  apply is_document_caps in Hd' as [Hg' [_ Hm']].
  exists this'. split; [exact E|]. split; [exact He|]. split.
  - unfold virtual_lang_get. apply String.eqb_neq in Hl. rewrite Hl.
    rewrite !getPathValue_document by assumption. f_equal. exact Hread.
  - intros fallbackLang raw Hfb. unfold schemaType_get.
    rewrite (getLanguage_docLanguage options this' this Hdl).
    now rewrite Hm, Hm', Hread, Hfb.
Qed.

Lemma nested_path_write_not_read_witness :
  exists this',
    assign_field Sample.options "address.city" Sample.doc_new (VStr "Paris")
    = Ok this'
    /\ entry (overlay this') (getLanguage Sample.options Sample.doc_new)
         "address.city" = Some (VStr "Paris")
    /\ virtual_lang_get Sample.options "address.city"
         (getLanguage Sample.options Sample.doc_new) this'
       = virtual_lang_get Sample.options "address.city"
           (getLanguage Sample.options Sample.doc_new) Sample.doc_new
    /\ (forall fallbackLang raw, set_str fallbackLang = false ->
        schemaType_get Sample.options "address.city" fallbackLang this' raw
        = schemaType_get Sample.options "address.city" fallbackLang
            Sample.doc_new raw).
Proof.
  apply (nested_path_write_not_read Sample.options "address.city"
           Sample.doc_new (VStr "Paris")).
  - reflexivity.
  - discriminate.
  - reflexivity.
  - reflexivity.
  - reflexivity.
  - reflexivity.
Defined.

Lemma starts_with_app p s :
  Host.starts_with p s = true -> exists rest, s = p ++ rest.
Proof.
  revert s. induction p as [|a p IH]; intros s H.
  - now exists s.
  - destruct s as [|b s]; [discriminate|]. simpl in H.
    apply andb_true_iff in H as [Hab Hp]. apply Ascii.eqb_eq in Hab.
    destruct (IH s Hp) as [rest ->]. exists rest. now subst.
Qed.

(** A base path is neither [_i18n] nor a path below it. *)
Lemma base_path_not_overlay path :
  base_path path = true ->
  (path =? "_i18n") || Host.starts_with ("_i18n" ++ ".") path = false.
Proof.
  unfold base_path. intros H. apply negb_true_iff in H.
  apply orb_false_iff. split.
  - apply String.eqb_neq. intros ->. discriminate.
  - destruct (Host.starts_with ("_i18n" ++ ".") path) eqn:E; [|reflexivity].
    apply starts_with_app in E as [rest ->]. discriminate.
Qed.

(** X14: while the default language is active, the set hook of a marked
    field hands the value back as it is and leaves the document alone, so a
    write of the field reaches the base slot and nothing else: the stored
    overlay is as it was and is not marked as changed by the write, and a
    read of the field in the default language answers the value written. *)
Theorem default_language_write (options : Options) (path : string)
    (fallbackLang : option string) (this : document) (v : value) :
  is_document this = true ->
  getLanguage options this = defaultLanguage options ->
  base_path path = true ->
  schemaType_set options path this v = Ok (v, this)
  /\ exists this',
       assign_field options path this v = Ok this'
       /\ getValue this' path = v
       /\ overlay this' = overlay this
       /\ isModified this' "_i18n" = isModified this "_i18n"
       /\ schemaType_get options path fallbackLang this' (getValue this' path)
          = v.
Proof.
  intros Hd Hl Hb.
  assert (Hset : schemaType_set options path this v = Ok (v, this)).
  { unfold schemaType_set. now rewrite Hl, String.eqb_refl, orb_true_r. }
  split; [exact Hset|]. unfold assign_field. rewrite Hset. cbn [bind].
  eexists. split; [reflexivity|].
  split; [exact (store_get_set _ _ _)|]. split; [|split].
  - change (overlay (setValue this path v) = overlay this).
    now apply overlay_after_base.
  - unfold isModified.
    cbn [modifiedPaths markModified setValue with_doc existsb].
    now rewrite base_path_not_overlay.
  - unfold schemaType_get.
    replace (getLanguage options _) with (getLanguage options this)
      by reflexivity.
    rewrite Hl, String.eqb_refl, orb_true_r. exact (store_get_set _ _ _).
Qed.

Lemma default_language_write_witness :
  schemaType_set Sample.options "title" Sample.doc_en (VStr "Hi")
  = Ok (VStr "Hi", Sample.doc_en)
  /\ exists this',
       assign_field Sample.options "title" Sample.doc_en (VStr "Hi")
       = Ok this'
       /\ getValue this' "title" = VStr "Hi"
       /\ overlay this' = overlay Sample.doc_en
       /\ isModified this' "_i18n" = isModified Sample.doc_en "_i18n"
       /\ schemaType_get Sample.options "title" (Some "fr") this'
            (getValue this' "title") = VStr "Hi".
Proof.
  apply (default_language_write Sample.options "title" (Some "fr")
           Sample.doc_en (VStr "Hi")).
  - reflexivity.
  - reflexivity.
  - reflexivity.
Defined.

(** ** The aggregate view, written and read *)

Lemma lookup_In_keys k m x : lookup k m = Some x -> In k (keys m).
Proof.
  induction m as [|[k' x'] t IH]; simpl; [discriminate|].
  destruct (String.eqb_spec k k') as [->|Hne]; auto.
Qed.

Lemma lookup_remove_other k k' l :
  k' <> k -> lookup k' (remove k l) = lookup k' l.
Proof.
  intros Hne. induction l as [|[k0 x] t IH]; simpl; [reflexivity|].
  destruct (String.eqb_spec k k0) as [->|H0].
  - apply String.eqb_neq in Hne. now rewrite Hne.
  - simpl. now rewrite IH.
Qed.

Lemma entries_shaped_remove k l :
  entries_shaped l -> entries_shaped (remove k l).
Proof.
  unfold entries_shaped. induction l as [|[k' x] t IH]; simpl; auto.
  intros H. apply andb_true_iff in H as [Hx Ht].
  destruct (k =? k'); simpl; rewrite ?Hx; auto.
Qed.

(** The setter's loop over the keys of the default-language entry, for keys
    that are distinct single steps. *)
Lemma write_base_loop entry ks this :
  truthy entry = true ->
  is_document this = true ->
  NoDup ks ->
  forallb no_dot ks = true ->
  exists this',
    forEach (write_base entry) ks this = Ok this'
    /\ is_document this' = true
    /\ (forall k, In k ks ->
        getValue this' k = member entry k /\ In k (modifiedPaths this'))
    /\ (forall p, ~ In (hd "" (split_path p)) ks ->
        getValue this' p = getValue this p)
    /\ (forall q, In q (modifiedPaths this) -> In q (modifiedPaths this')).
Proof.
  intros He. revert this.
  induction ks as [|k t IH]; intros this Hd Hnd Hdot.
  - exists this. split; [reflexivity|]. split; [assumption|].
    split; [intros k []|]. split; auto.
  - cbn [forEach]. unfold write_base at 1.
    assert (Hg : get_member entry k = Ok (member entry k))
      by (destruct entry; try reflexivity; discriminate).
    rewrite Hg. cbn [bind].
    rewrite setPathValue_document by now apply is_document_caps in Hd.
    cbn [bind]. cbn [forallb] in Hdot.
    apply andb_true_iff in Hdot as [Hk Ht].
    inversion Hnd as [|? ? Hnotin Hnd']; subst.
    set (this1 := markModified (setValue this k (member entry k)) k).
    destruct (IH this1 Hd Hnd' Ht) as [this' [E [Hd' [Hin [Hout Hmono]]]]].
    exists this'. split; [exact E|]. split; [exact Hd'|].
    split; [|split].
    + intros k' [<-|Hk']; [|now apply Hin].
      assert (Hhd : ~ In (hd "" (split_path k)) t)
        by now rewrite split_path_no_dot.
      rewrite (Hout k Hhd). split; [exact (store_get_set _ _ _)|].
      apply Hmono. now left.
    + intros p Hp. cbn [In] in Hp.
      rewrite Hout by tauto.
      change (store_get (split_path p)
                (store_set (split_path k) (member entry k) (_doc this))
              = store_get (split_path p) (_doc this)).
      rewrite (split_path_no_dot k Hk).
      destruct (split_path p) as [|a ps] eqn:Ea;
        [now apply split_path_nonempty in Ea|].
      apply store_get_set_other. simpl in Hp. intros ->. tauto.
    + intros q Hq. apply Hmono. now right.
Qed.

(** The setter of the aggregate view on a map with a default-language
    entry. *)
Lemma aggregate_write_spec options this l m :
  is_document this = true ->
  member (VObj l) (defaultLanguage options) = VObj m ->
  NoDup (keys m) ->
  forallb no_dot (keys m) = true ->
  forallb base_path (keys m) = true ->
  exists this',
    virtual_i18n_set options this (VObj l) = Ok this'
    /\ overlay this' = VObj (remove (defaultLanguage options) l)
    /\ (forall k x, lookup k m = Some x -> getValue this' k = x)
    /\ is_document this' = true.
Proof.
  intros Hd Hm Hnd Hdot Hbase. unfold virtual_i18n_set.
  cbn [get_member bind]. rewrite Hm. cbn [truthy].
  destruct (write_base_loop (VObj m) (keys m) this eq_refl Hd Hnd Hdot)
    as [this1 [E [Hd1 [Hin [Hout Hmono]]]]].
  rewrite E. cbn [bind delete_member].
  rewrite setPathValue_document by now apply is_document_caps in Hd1.
  cbn [bind]. eexists. split; [reflexivity|].
  split; [exact (store_get_set ["_i18n"] _ _)|]. split; [|exact Hd1].
  intros k x Hk. pose proof (lookup_In_keys k m x Hk) as Hkin.
  destruct (Hin k Hkin) as [Hv _].
  rewrite forallb_forall in Hbase.
  change (getValue (setValue this1 "_i18n"
                      (VObj (remove (defaultLanguage options) l))) k = x).
  rewrite getValue_base_after_overlay by now apply Hbase.
  rewrite Hv. simpl. now rewrite Hk.
Qed.

(** X15: the setter of the aggregate view, given a map with an entry for
    the default language whose keys are distinct top-level field names,
    writes each value of that entry to the base slot of its field and marks
    the field as changed; what is stored as the overlay is the map without
    that entry, marked as changed; base fields the entry does not name are
    as they were. *)
Theorem aggregate_write (options : Options) (this : document)
    (l m : list (string * value)) :
  is_document this = true ->
  member (VObj l) (defaultLanguage options) = VObj m ->
  NoDup (keys m) ->
  forallb no_dot (keys m) = true ->
  forallb base_path (keys m) = true ->
  exists this',
    virtual_i18n_set options this (VObj l) = Ok this'
    /\ overlay this' = VObj (remove (defaultLanguage options) l)
    /\ In "_i18n" (modifiedPaths this')
    /\ (forall k x, lookup k m = Some x ->
        getValue this' k = x /\ In k (modifiedPaths this'))
    /\ (forall p, base_path p = true ->
        ~ In (hd "" (split_path p)) (keys m) ->
        getValue this' p = getValue this p)
    /\ is_document this' = true.
Proof.
  intros Hd Hm Hnd Hdot Hbase. unfold virtual_i18n_set.
  cbn [get_member bind]. rewrite Hm. cbn [truthy].
  destruct (write_base_loop (VObj m) (keys m) this eq_refl Hd Hnd Hdot)
    as [this1 [E [Hd1 [Hin [Hout Hmono]]]]].
  rewrite E. cbn [bind delete_member].
  rewrite setPathValue_document by now apply is_document_caps in Hd1.
  cbn [bind]. eexists. split; [reflexivity|].
  split; [exact (store_get_set ["_i18n"] _ _)|]. split; [now left|].
  split; [|split; [|exact Hd1]].
  - intros k x Hk. pose proof (lookup_In_keys k m x Hk) as Hkin.
    destruct (Hin k Hkin) as [Hv Hmod]. split; [|now right].
    rewrite forallb_forall in Hbase.
    change (getValue (setValue this1 "_i18n"
                        (VObj (remove (defaultLanguage options) l))) k = x).
    rewrite getValue_base_after_overlay by now apply Hbase.
    rewrite Hv. simpl. now rewrite Hk.
  - intros p Hp Hnot.
    change (getValue (setValue this1 "_i18n"
                        (VObj (remove (defaultLanguage options) l))) p
            = getValue this p).
    rewrite getValue_base_after_overlay by assumption. now apply Hout.
Qed.

Lemma aggregate_write_witness :
  exists this',
    virtual_i18n_set Sample.options Sample.doc_fr Sample.payload = Ok this'
    /\ overlay this' = VObj [("fr", VObj [("title", VStr "Salut")])]
    /\ In "_i18n" (modifiedPaths this')
    /\ (forall k x, lookup k [("title", VStr "Hi")] = Some x ->
        getValue this' k = x /\ In k (modifiedPaths this'))
    /\ (forall p, base_path p = true ->
        ~ In (hd "" (split_path p)) (keys [("title", VStr "Hi")]) ->
        getValue this' p = getValue Sample.doc_fr p)
    /\ is_document this' = true.
Proof.
  apply (aggregate_write Sample.options Sample.doc_fr
           [("en", VObj [("title", VStr "Hi")]);
            ("fr", VObj [("title", VStr "Salut")])]
           [("title", VStr "Hi")]).
  - reflexivity.
  - reflexivity.
  - simpl. repeat constructor. intros [].
  - reflexivity.
  - reflexivity.
Defined.

(** X16: what the setter of the aggregate view was given is what its getter
    shows afterwards: for every marked field, each non-default configured
    language shows the entry of the map that was written ([null] for an
    empty or missing one), and the default language shows the value the map
    gave for the field. *)
Theorem aggregate_write_then_read (options : Options) (fields : list string)
    (this : document) (l m : list (string * value)) :
  is_document this = true ->
  overlay_shaped (VObj l) = true ->
  member (VObj l) (defaultLanguage options) = VObj m ->
  NoDup (keys m) ->
  forallb no_dot (keys m) = true ->
  forallb base_path (keys m) = true ->
  forallb base_path fields = true ->
  exists this1 v this2,
    virtual_i18n_set options this (VObj l) = Ok this1
    /\ virtual_i18n_get options fields this1 = Ok (v, this2)
    /\ (forall lang field,
        In lang (languages options) -> In field fields ->
        lang <> defaultLanguage options ->
        entry v lang field = Some (shown (entry (VObj l) lang field)))
    /\ (forall field x, In field fields -> lookup field m = Some x ->
        entry v (defaultLanguage options) field = Some x).
Proof.
  intros Hd Hs Hm Hnd Hdot Hbk Hbf.
  destruct (aggregate_write_spec options this l m Hd Hm Hnd Hdot Hbk)
    as [this1 [E1 [Hov [Hval Hd1]]]].
  apply is_document_caps in Hd1 as [Hg1 _].
  assert (Hs1 : overlay_shaped (overlay this1) = true).
  { rewrite Hov. now apply entries_shaped_remove. }
  destruct (virtual_i18n_get_spec options fields this1 Hg1 Hs1 Hbf)
    as [l2 [E2 [_ [D [_ A]]]]].
  exists this1, (VObj l2). eexists. split; [exact E1|]. split; [exact E2|].
  split.
  - intros lang field Hl Hf Hne. rewrite (A lang field Hl Hf Hne), Hov.
    unfold entry. now rewrite lookup_remove_other.
  - intros field x Hf Hx. rewrite (D field Hf). f_equal. now apply Hval.
Qed.

Lemma aggregate_write_then_read_witness :
  exists this1 v this2,
    virtual_i18n_set Sample.options Sample.doc_fr Sample.payload = Ok this1
    /\ virtual_i18n_get Sample.options ["title"] this1 = Ok (v, this2)
    /\ (forall lang field,
        In lang (languages Sample.options) -> In field ["title"] ->
        lang <> defaultLanguage Sample.options ->
        entry v lang field = Some (shown (entry Sample.payload lang field)))
    /\ (forall field x, In field ["title"] ->
        lookup field [("title", VStr "Hi")] = Some x ->
        entry v (defaultLanguage Sample.options) field = Some x).
Proof.
  apply (aggregate_write_then_read Sample.options ["title"] Sample.doc_fr
           [("en", VObj [("title", VStr "Hi")]);
            ("fr", VObj [("title", VStr "Salut")])]
           [("title", VStr "Hi")]).
  - reflexivity.
  - reflexivity.
  - reflexivity.
  - simpl. repeat constructor. intros [].
  - reflexivity.
  - reflexivity.
  - reflexivity.
Defined.

(** The getter of the aggregate view answers with a map of the data model's
    shape. *)
Lemma virtual_i18n_get_shaped options fields this :
  has_getValue this || has___getValue this = true ->
  overlay_shaped (overlay this) = true ->
  forallb base_path fields = true ->
  exists l,
    virtual_i18n_get options fields this
    = Ok (VObj l, sync (truthy (overlay this)) this (VObj l))
    /\ entries_shaped l
    /\ (forall field, In field fields ->
        entry (VObj l) (defaultLanguage options) field
        = Some (getValue this field))
    /\ (forall lang field, In lang (languages options) -> In field fields ->
        lang <> defaultLanguage options ->
        entry (VObj l) lang field
        = Some (shown (entry (overlay this) lang field))).
Proof.
  intros Hg Hs Hb. unfold virtual_i18n_get.
  rewrite getPathValue_document by assumption. cbn [bind].
  fold (overlay this).
  assert (H0 : exists l0,
             or_else (overlay this) (VObj []) = VObj l0
             /\ entries_shaped l0
             /\ forall lang field,
                 entry (VObj l0) lang field = entry (overlay this) lang field).
  { destruct (overlay_shaped_cases _ Hs) as [Hf|[l0 E]].
    - exists []. unfold or_else. rewrite Hf. repeat split.
      intros lang field. destruct (overlay this); try reflexivity.
      discriminate.
    - exists l0. rewrite E in *. repeat split. exact Hs. }
  destruct H0 as [l0 [E0 [S0 Hsame]]]. rewrite E0. cbn [set_member bind].
  destruct (fill_fields_spec options this (truthy (overlay this)) Hg fields
              (upd (defaultLanguage options) (VObj []) l0) Hb)
    as [l [E [S [O [D [A F]]]]]].
  { apply entries_shaped_upd; [reflexivity|assumption]. }
  { now rewrite member_upd_same. }
  exists l. rewrite E. cbn [bind]. split; [reflexivity|].
  split; [exact S|]. split; [exact D|].
  intros lang field Hl Hf Hne. rewrite (A lang field Hl Hf Hne).
  rewrite entry_upd_other by assumption. now rewrite Hsame.
Qed.

(** X17: a second read of the aggregate view shows, for every configured
    language and marked field, what the first read showed: what the first
    read filled into the stored overlay does not change what is shown. *)
Theorem aggregate_read_twice (options : Options) (fields : list string)
    (this : document) :
  is_document this = true ->
  overlay_shaped (overlay this) = true ->
  forallb base_path fields = true ->
  exists v1 this1 v2 this2,
    virtual_i18n_get options fields this = Ok (v1, this1)
    /\ virtual_i18n_get options fields this1 = Ok (v2, this2)
    /\ (forall lang field,
        In lang (languages options) -> In field fields ->
        entry v2 lang field = entry v1 lang field).
Proof.
  intros Hd Hs Hb. apply is_document_caps in Hd as [Hg _].
  destruct (virtual_i18n_get_shaped options fields this Hg Hs Hb)
    as [l1 [E1 [S1 [D1 A1]]]].
  set (this1 := sync (truthy (overlay this)) this (VObj l1)) in *.
  assert (Hg1 : has_getValue this1 || has___getValue this1 = true)
    by apply (sync_caps this _ Hg).
  assert (Hbase : forall f, In f fields -> getValue this1 f = getValue this f).
  { intros f Hf. rewrite forallb_forall in Hb.
    pose proof (getPathValue_sync this (truthy (overlay this)) Hg (VObj l1) f
                  (Hb f Hf)) as H.
    fold this1 in H. rewrite getPathValue_document in H by assumption.
    now injection H. }
  assert (Hov : overlay this1 = VObj l1 \/ this1 = this).
  { unfold this1. destruct (truthy (overlay this)) eqn:Et.
    - left. now apply overlay_sync.
    - now right. }
  assert (Hs1 : overlay_shaped (overlay this1) = true)
    by (destruct Hov as [-> | ->]; assumption).
  destruct (virtual_i18n_get_shaped options fields this1 Hg1 Hs1 Hb)
    as [l2 [E2 [_ [D2 A2]]]].
  exists (VObj l1), this1, (VObj l2). eexists.
  split; [exact E1|]. split; [exact E2|].
  intros lang field Hl Hf.
  destruct (String.eqb_spec lang (defaultLanguage options)) as [->|Hne].
  - rewrite D1, D2 by assumption. f_equal. now apply Hbase.
  - rewrite A2 by assumption.
    destruct Hov as [Hov|Hov].
    + rewrite Hov, A1 by assumption. now rewrite shown_idem.
    + rewrite Hov. symmetry. now apply A1.
Qed.

Lemma aggregate_read_twice_witness :
  exists v1 this1 v2 this2,
    virtual_i18n_get Sample.options ["title"] Sample.doc_fr = Ok (v1, this1)
    /\ virtual_i18n_get Sample.options ["title"] this1 = Ok (v2, this2)
    /\ (forall lang field,
        In lang (languages Sample.options) -> In field ["title"] ->
        entry v2 lang field = entry v1 lang field).
Proof.
  apply (aggregate_read_twice Sample.options ["title"] Sample.doc_fr).
  - reflexivity.
  - reflexivity.
  - reflexivity.
Defined.

(** ** What a read of the aggregate view changes for later reads *)

Lemma shown_entry x lang field :
  shown (entry x lang field) = or_else (member (member x lang) field) VNull.
Proof.
  unfold entry. destruct x as [| | | | |l]; try reflexivity. simpl.
  destruct (lookup lang l) as [[| | | | |m]|]; try reflexivity.
  simpl. now destruct (lookup field m).
Qed.

Lemma sync_frame aliased this v :
  has_getValue this || has___getValue this = true ->
  docLanguage (sync aliased this v) = docLanguage this
  /\ is_document (sync aliased this v) = is_document this
  /\ isNew (sync aliased this v) = isNew this
  /\ modifiedPaths (sync aliased this v) = modifiedPaths this.
Proof.
  intros Hg. unfold sync, alias_i18n. rewrite Hg.
  destruct aliased; repeat split.
Qed.

(** X18: a read of the aggregate view of a document that stores an overlay
    changes what the field reads answer for an empty translation: the slot
    of every configured non-default language and marked field reads
    afterwards as its former content, or as [null] when that was empty or
    missing, so a read of the field without a fallback language answers
    [null] where it answered [undefined]; a translation that was there is
    read as before. *)
Theorem aggregate_read_then_field_read (options : Options)
    (fields : list string) (this : document) (lang field : string) :
  is_document this = true ->
  truthy (overlay this) = true ->
  overlay_shaped (overlay this) = true ->
  forallb base_path fields = true ->
  In lang (languages options) -> lang <> defaultLanguage options ->
  In field fields ->
  no_dot lang = true -> no_dot field = true ->
  exists v this1,
    virtual_i18n_get options fields this = Ok (v, this1)
    /\ Host.get this1 (overlay_key lang field)
       = or_else (Host.get this (overlay_key lang field)) VNull
    /\ (getLanguage options this = lang ->
        forall fallbackLang raw, set_str fallbackLang = false ->
        schemaType_get options field fallbackLang this1 raw
        = or_else (schemaType_get options field fallbackLang this raw) VNull).
Proof.
  intros Hd Ht Hs Hb Hl Hne Hf Hn1 Hn2.
  pose proof Hd as Hdoc. apply is_document_caps in Hd as [Hg [_ Hm]].
  destruct (virtual_i18n_get_shaped options fields this Hg Hs Hb)
    as [l1 [E1 [S1 [D1 A1]]]].
  rewrite Ht in E1.
  destruct (sync_frame true this (VObj l1) Hg) as [Hdl [Hdoc1 _]].
  set (this1 := sync true this (VObj l1)) in *.
  assert (Hread : Host.get this1 (overlay_key lang field)
                  = or_else (Host.get this (overlay_key lang field)) VNull).
  { rewrite !overlay_slot_read by assumption.
    unfold this1. rewrite overlay_sync by assumption.
    rewrite <- shown_entry. apply entry_member. now apply A1. }
  exists (VObj l1), this1. split; [exact E1|]. split; [exact Hread|].
  intros Hact fallbackLang raw Hfb. unfold schemaType_get.
  rewrite (getLanguage_docLanguage options this1 this Hdl).
  assert (Hm1 : has_getLanguage this1 = true).
  { rewrite Hdoc in Hdoc1. now apply is_document_caps in Hdoc1. }
  rewrite Hm, Hm1, Hact, Hfb, Hread.
  apply String.eqb_neq in Hne. rewrite Hne. cbn [negb orb].
  unfold or_else.
  destruct (truthy (Host.get this (overlay_key lang field))) eqn:Ev;
    rewrite ?Ev; reflexivity.
Qed.

Lemma aggregate_read_then_field_read_witness :
  exists v this1,
    virtual_i18n_get Sample.options ["title"] Sample.doc_fr = Ok (v, this1)
    /\ Host.get this1 (overlay_key "de" "title")
       = or_else (Host.get Sample.doc_fr (overlay_key "de" "title")) VNull
    /\ (getLanguage Sample.options Sample.doc_fr = "de" ->
        forall fallbackLang raw, set_str fallbackLang = false ->
        schemaType_get Sample.options "title" fallbackLang this1 raw
        = or_else (schemaType_get Sample.options "title" fallbackLang
                     Sample.doc_fr raw) VNull).
Proof.
  apply (aggregate_read_then_field_read Sample.options ["title"]
           Sample.doc_fr "de" "title").
  - reflexivity.
  - reflexivity.
  - reflexivity.
  - reflexivity.
  - simpl. auto.
  - discriminate.
  - simpl. auto.
  - reflexivity.
  - reflexivity.
Defined.

(** X19: the base values that a read of the aggregate view files in the
    stored overlay under the default language are not kept up to date.  For
    a field whose fallback language is the default language: once the
    aggregate view was read, a later write of the field in the default
    language reaches the base slot, but a read in a language without a
    translation still answers the base value of the time of the aggregate
    read.  Without the read of the aggregate view, the same write and read
    answer the value written. *)
Theorem stale_fallback_after_aggregate_read (options : Options)
    (fields : list string) (this : document) (path L : string) (v : value) :
  is_document this = true ->
  truthy (overlay this) = true ->
  overlay_shaped (overlay this) = true ->
  no_default_entry options this = true ->
  forallb base_path fields = true ->
  In path fields ->
  getLanguage options this = defaultLanguage options ->
  L <> "" -> In L (languages options) -> L <> defaultLanguage options ->
  defaultLanguage options <> "" ->
  no_dot L = true -> no_dot (defaultLanguage options) = true ->
  no_dot path = true ->
  truthy (Host.get this (overlay_key L path)) = false ->
  truthy (getValue this path) = true ->
  let read d :=
    schemaType_get options path (Some (defaultLanguage options))
      (setLanguage options d (VStr L)) (getValue d path) in
  exists m this1 this2 this2',
    virtual_i18n_get options fields this = Ok (m, this1)
    /\ assign_field options path this1 v = Ok this2
    /\ getValue this2 path = v
    /\ read this2 = getValue this path
    /\ assign_field options path this v = Ok this2'
    /\ read this2' = v.
Proof.
  intros Hd Ht Hs Hinv Hb Hf Hact HL HLin HLne Hdef Hn1 Hn2 Hn3 Hempty Hbase
    read.
  pose proof Hd as Hdoc. apply is_document_caps in Hd as [Hg [_ Hm]].
  assert (Hbp : base_path path = true)
    by (rewrite forallb_forall in Hb; now apply Hb).
  destruct (virtual_i18n_get_shaped options fields this Hg Hs Hb)
    as [l1 [E1 [S1 [D1 A1]]]].
  rewrite Ht in E1.
  destruct (sync_frame true this (VObj l1) Hg) as [Hdl [Hdoc1 _]].
  pose proof (overlay_sync this (VObj l1) Hg) as Hov1.
  set (this1 := sync true this (VObj l1)) in *.
  assert (Hm1 : has_getLanguage this1 = true).
  { rewrite Hdoc in Hdoc1. now apply is_document_caps in Hdoc1. }
  (* a write in the default language, on any document [d] *)
  assert (Hwrite : forall d,
             getLanguage options d = defaultLanguage options ->
             assign_field options path d v
             = Ok (markModified (setValue d path v) path)).
  { intros d Hd'. unfold assign_field, schemaType_set.
    now rewrite Hd', String.eqb_refl, orb_true_r. }
  (* the read in [L], on a document [d] with a given overlay *)
  assert (Hread : forall d,
             has_getLanguage d = true ->
             read (markModified (setValue d path v) path)
             = (if truthy (member (member (overlay d) L) path)
                then member (member (overlay d) L) path
                else if truthy (member (member (overlay d)
                                          (defaultLanguage options)) path)
                     then member (member (overlay d)
                                    (defaultLanguage options)) path
                     else v)).
  { intros d Hmd. unfold read, setLanguage, getLanguages.
    rewrite accepted by assumption.
    set (d2 := markModified (setValue d path v) path).
    assert (Ho : overlay d2 = overlay d)
      by (change (overlay (setValue d path v) = overlay d);
          now apply overlay_after_base).
    assert (Hgl : getLanguage options (with_docLanguage d2 (Some L)) = L).
    { unfold getLanguage. simpl. apply String.eqb_neq in HL. now rewrite HL. }
    unfold schemaType_get. rewrite Hgl.
    change (has_getLanguage (with_docLanguage d2 (Some L)))
      with (has_getLanguage d).
    change (Host.get (with_docLanguage d2 (Some L)))
      with (Host.get d2).
    rewrite !overlay_slot_read, Ho by assumption.
    rewrite Hmd. apply String.eqb_neq in HLne. rewrite HLne.
    cbn [negb orb set_str]. apply String.eqb_neq in Hdef. rewrite Hdef.
    cbn [negb].
    replace (getValue d2 path) with v by (symmetry; exact (store_get_set _ _ _)).
    destruct (truthy (member (member (overlay d) L) path)); reflexivity. }
  exists (VObj l1), this1. eexists. eexists.
  split; [exact E1|].
  split; [apply Hwrite; now rewrite (getLanguage_docLanguage _ _ _ Hdl)|].
  split; [exact (store_get_set _ _ _)|]. split; [|split].
  - rewrite (Hread this1 Hm1), Hov1.
    rewrite (entry_member _ _ _ _ (A1 L path HLin Hf HLne)).
    rewrite (entry_member _ _ _ _ (D1 path Hf)).
    rewrite shown_entry, <- overlay_slot_read by assumption.
    unfold or_else. rewrite Hempty. cbn [truthy]. now rewrite Hbase.
  - now apply Hwrite.
  - rewrite (Hread this Hm).
    rewrite <- overlay_slot_read, Hempty by assumption.
    unfold no_default_entry in Hinv. apply negb_true_iff in Hinv.
    assert (Hnone : truthy (member (member (overlay this)
                                      (defaultLanguage options)) path)
                    = false).
    { destruct (member (overlay this) (defaultLanguage options));
        try reflexivity. discriminate. }
    now rewrite Hnone.
Qed.

Lemma stale_fallback_after_aggregate_read_witness :
  let read d :=
    schemaType_get Sample.options "title"
      (Some (defaultLanguage Sample.options))
      (setLanguage Sample.options d (VStr "de")) (getValue d "title") in
  exists m this1 this2 this2',
    virtual_i18n_get Sample.options ["title"] Sample.doc_en = Ok (m, this1)
    /\ assign_field Sample.options "title" this1 (VStr "Hi") = Ok this2
    /\ getValue this2 "title" = VStr "Hi"
    /\ read this2 = getValue Sample.doc_en "title"
    /\ assign_field Sample.options "title" Sample.doc_en (VStr "Hi")
       = Ok this2'
    /\ read this2' = VStr "Hi".
Proof.
  apply (stale_fallback_after_aggregate_read Sample.options ["title"]
           Sample.doc_en "title" "de" (VStr "Hi")).
  - reflexivity.
  - reflexivity.
  - reflexivity.
  - reflexivity.
  - reflexivity.
  - simpl. auto.
  - reflexivity.
  - discriminate.
  - simpl. auto.
  - discriminate.
  - discriminate.
  - reflexivity.
  - reflexivity.
  - reflexivity.
  - reflexivity.
  - reflexivity.
Defined.

(** The condition on the language codes is needed: with the codes "c" and
    "b_c", the marked paths "a_b" and "a" are given the same virtual. *)
Lemma install_names_clash :
  let paths := [("a_b", Install.mkSchemaTypeOptions true None);
                ("a", Install.mkSchemaTypeOptions true None)] in
  In (Install.virtual_name "a_b" "c")
    (map (Install.virtual_name "a") ["c"; "b_c"])
  /\ ~ NoDup (Install.virtuals
               (Install.mongooseI18nExtra (mkOptions "c" ["c"; "b_c"] None)
                  paths)).
Proof.
  split; [simpl; auto|].
  intros H. simpl in H.
  inversion H as [|? ? Hnot _]; subst.
  apply Hnot. simpl. auto.
Qed.

(** ** Writing through a per-language virtual *)

(** On a document that stores no overlay, the setter of [path_lang] for a
    non-default language changes nothing. *)
Lemma virtual_lang_set_lost options fields path lang this v :
  has_getValue this || has___getValue this = true ->
  truthy (overlay this) = false ->
  forallb base_path fields = true ->
  lang <> defaultLanguage options ->
  virtual_lang_set options fields path lang this v = Ok this.
Proof.
  intros Hg Ht Hb Hl. unfold virtual_lang_set, set_below_i18n.
  apply String.eqb_neq in Hl. rewrite Hl.
  rewrite getPathValue_document by assumption. cbn [bind].
  assert (Hs : overlay_shaped (overlay this) = true).
  { generalize Ht. destruct (overlay this); cbn [overlay_shaped];
      intros H; rewrite ?H; try reflexivity; discriminate. }
  destruct (virtual_i18n_get_shaped options fields this Hg Hs Hb)
    as [l1 [E1 _]].
  rewrite E1. cbn [bind]. fold (overlay this). now rewrite Ht.
Qed.

(** On a document that stores an overlay, the value reaches the slot, in
    the map the getter of the aggregate view has filled; nothing is marked
    as changed. *)
Lemma virtual_lang_set_spec options fields path lang this v :
  has_getValue this || has___getValue this = true ->
  truthy (overlay this) = true ->
  overlay_shaped (overlay this) = true ->
  forallb base_path fields = true ->
  In path fields ->
  In lang (languages options) -> lang <> defaultLanguage options ->
  no_dot lang = true -> no_dot path = true ->
  exists this',
    virtual_lang_set options fields path lang this v = Ok this'
    /\ member (member (overlay this') lang) path = v
    /\ is_obj (member (overlay this') (defaultLanguage options)) = true
    /\ modifiedPaths this' = modifiedPaths this
    /\ docLanguage this' = docLanguage this
    /\ is_document this' = is_document this.
Proof.
  intros Hg Ht Hs Hb Hf Hin Hl Hn1 Hn2.
  unfold virtual_lang_set, set_below_i18n.
  pose proof Hl as Hl'. apply String.eqb_neq in Hl'. rewrite Hl'.
  rewrite getPathValue_document by assumption. cbn [bind].
  destruct (virtual_i18n_get_shaped options fields this Hg Hs Hb)
    as [l1 [E1 [S1 [D1 A1]]]].
  rewrite E1. cbn [bind]. fold (overlay this). rewrite Ht.
  rewrite split_overlay_key, split_path_dot, split_path_no_dot by assumption.
  cbn [tl].
  pose proof (A1 lang path Hin Hf Hl) as Hslot.
  assert (Hm : exists m, lookup lang l1 = Some (VObj m)).
  { unfold entry in Hslot.
    destruct (lookup lang l1) as [[| | | | |m]|]; try discriminate.
    now exists m. }
  destruct Hm as [m Hm].
  assert (Hdef : is_obj (member (VObj l1) (defaultLanguage options)) = true).
  { pose proof (D1 path Hf) as Hd. unfold entry in Hd. simpl.
    destruct (lookup (defaultLanguage options) l1) as [[| | | | |m']|];
      try discriminate. reflexivity. }
  cbn [mpath_set member]. rewrite Hm. cbn [truthy].
  destruct (sync_frame true this
              (VObj (upd lang (VObj (upd path v m)) l1)) Hg)
    as [Hdl [Hdoc [_ Hmod]]].
  eexists. split; [reflexivity|].
  rewrite overlay_sync by assumption.
  rewrite member_upd_same, member_upd_same.
  split; [reflexivity|]. split; [|split; [exact Hmod|split; assumption]].
  rewrite member_upd_other; [exact Hdef|congruence].
Qed.

(** X12: a write through the virtual [path_lang] of a non-default language
    reaches the stored overlay only when the document already stores one.
    Then the slot holds the value, and a read of the field by its plain
    name with that language active answers it (for a non-empty value,
    whatever the fallback language and the base value), but nothing is
    marked as changed; on a document that stores no overlay the write
    changes nothing at all. *)
Theorem virtual_write_then_field_read (options : Options)
    (fields : list string) (path : string) (this : document) (v : value) :
  is_document this = true ->
  getLanguage options this <> defaultLanguage options ->
  In (getLanguage options this) (languages options) ->
  In path fields ->
  forallb base_path fields = true ->
  overlay_shaped (overlay this) = true ->
  no_dot (getLanguage options this) = true -> no_dot path = true ->
  truthy v = true ->
  (truthy (overlay this) = true ->
   exists this',
     virtual_lang_set options fields path (getLanguage options this) this v
     = Ok this'
     /\ member (member (overlay this') (getLanguage options this)) path = v
     /\ modifiedPaths this' = modifiedPaths this
     /\ forall fallbackLang raw,
         schemaType_get options path fallbackLang this' raw = v)
  /\ (truthy (overlay this) = false ->
      virtual_lang_set options fields path (getLanguage options this) this v
      = Ok this).
Proof.
  intros Hd Hl Hin Hf Hb Hs Hn1 Hn2 Hv.
  pose proof Hd as Hdoc. apply is_document_caps in Hd as [Hg [_ Hm]].
  split; intros Ht; [|now apply virtual_lang_set_lost].
  destruct (virtual_lang_set_spec options fields path
              (getLanguage options this) this v Hg Ht Hs Hb Hf Hin Hl Hn1 Hn2)
    as [this' [E [Hslot [_ [Hmod [Hdl Hd']]]]]].
  exists this'. split; [exact E|]. split; [exact Hslot|].
  split; [exact Hmod|]. intros fallbackLang raw.
  rewrite Hdoc in Hd'. apply is_document_caps in Hd' as [_ [_ Hm']].
  apply schemaType_get_translated;
    rewrite ?(getLanguage_docLanguage options this' this Hdl);
    try assumption.
  now rewrite overlay_slot_read.
Qed.

Lemma virtual_write_then_field_read_witness :
  (truthy (overlay Sample.doc_fr) = true ->
   exists this',
     virtual_lang_set Sample.options ["title"] "title"
       (getLanguage Sample.options Sample.doc_fr) Sample.doc_fr (VStr "Hallo")
     = Ok this'
     /\ member (member (overlay this')
                  (getLanguage Sample.options Sample.doc_fr)) "title"
        = VStr "Hallo"
     /\ modifiedPaths this' = modifiedPaths Sample.doc_fr
     /\ forall fallbackLang raw,
         schemaType_get Sample.options "title" fallbackLang this' raw
         = VStr "Hallo")
  /\ (truthy (overlay Sample.doc_fr) = false ->
      virtual_lang_set Sample.options ["title"] "title"
        (getLanguage Sample.options Sample.doc_fr) Sample.doc_fr (VStr "Hallo")
      = Ok Sample.doc_fr).
Proof.
  apply (virtual_write_then_field_read Sample.options ["title"] "title"
           Sample.doc_fr (VStr "Hallo")).
  - reflexivity.
  - discriminate.
  - simpl. auto.
  - simpl. auto.
  - reflexivity.
  - reflexivity.
  - reflexivity.
  - reflexivity.
  - reflexivity.
Defined.

(** Like a read of the aggregate view, such a write leaves an entry keyed by
    the default language in the stored overlay. *)
Lemma virtual_lang_set_stores_default options fields path lang this v :
  has_getValue this || has___getValue this = true ->
  truthy (overlay this) = true ->
  overlay_shaped (overlay this) = true ->
  forallb base_path fields = true ->
  In path fields ->
  In lang (languages options) -> lang <> defaultLanguage options ->
  no_dot lang = true -> no_dot path = true ->
  exists this',
    virtual_lang_set options fields path lang this v = Ok this'
    /\ no_default_entry options this' = false.
Proof.
  intros Hg Ht Hs Hb Hf Hin Hl Hn1 Hn2.
  destruct (virtual_lang_set_spec options fields path lang this v
              Hg Ht Hs Hb Hf Hin Hl Hn1 Hn2) as [this' [E [_ [Hdef _]]]].
  exists this'. split; [exact E|]. unfold no_default_entry.
  destruct (member (overlay this') (defaultLanguage options));
    try discriminate. reflexivity.
Qed.
